(** * pdfmagic: a model of [src/pdf_processor.py] and its properties

    The module [PDFProcessor] of the repository is a linear pipeline:
    text extraction with PyMuPDF, batching of pages, a prompt for a
    generative model, a regular expression that locates a JSON array in
    the reply, and a post-processing step on the decoded records.

    Python values are embedded as they are in the interpreter: a [str]
    is a sequence of code points, an [int] is a [Z], a [dict] is an
    association list in insertion order, an exception is a value that a
    computation may raise.  The external libraries (fitz, the model
    client, [re], [json]) are modelled next to the code that calls them. *)

From Stdlib Require Import ZArith NArith List String Ascii Lia Bool.
From Stdlib Require Import DecimalString.
Import ListNotations.

Open Scope Z_scope.

Set Warnings "-register-all".

(** ** Python strings *)

(** A [str] is a sequence of Unicode code points. *)
Definition pystr := list N.

(** The [str] written by an ASCII literal. *)
Definition u (s : string) : pystr := map N_of_ascii (list_ascii_of_string s).

Definition dquote : N := 34.
Definition newline : N := 10.

Fixpoint pystr_eqb (a b : pystr) : bool :=
  match a, b with
  | [], [] => true
  | x :: a', y :: b' => N.eqb x y && pystr_eqb a' b'
  | _, _ => false
  end.

Fixpoint startswith (pre s : pystr) : bool :=
  match pre, s with
  | [], _ => true
  | x :: pre', y :: s' => N.eqb x y && startswith pre' s'
  | _ :: _, [] => false
  end.

(** [sub in s] on two strings. *)
Fixpoint str_contains (sub s : pystr) : bool :=
  startswith sub s ||
  match s with
  | [] => false
  | _ :: s' => str_contains sub s'
  end.

(** [sep.join(parts)] *)
Fixpoint join (sep : pystr) (parts : list pystr) : pystr :=
  match parts with
  | [] => []
  | [p] => p
  | p :: rest => p ++ sep ++ join sep rest
  end.

Fixpoint digits_of_uint (d : Decimal.uint) : pystr :=
  match d with
  | Decimal.Nil => []
  | Decimal.D0 d' => 48%N :: digits_of_uint d'
  | Decimal.D1 d' => 49%N :: digits_of_uint d'
  | Decimal.D2 d' => 50%N :: digits_of_uint d'
  | Decimal.D3 d' => 51%N :: digits_of_uint d'
  | Decimal.D4 d' => 52%N :: digits_of_uint d'
  | Decimal.D5 d' => 53%N :: digits_of_uint d'
  | Decimal.D6 d' => 54%N :: digits_of_uint d'
  | Decimal.D7 d' => 55%N :: digits_of_uint d'
  | Decimal.D8 d' => 56%N :: digits_of_uint d'
  | Decimal.D9 d' => 57%N :: digits_of_uint d'
  end.

(** [str(n)] for an [int]; the same text as [repr(n)] and [f"{n}"]. *)
Definition str_int (z : Z) : pystr :=
  match Z.to_int z with
  | Decimal.Pos d => digits_of_uint d
  | Decimal.Neg d => 45%N :: digits_of_uint d
  end.

(** [repr] of a list of ints, as [f"{page_numbers}"] prints it. *)
Definition repr_int_list (l : list Z) : pystr :=
  u "[" ++ join (u ", ") (map str_int l) ++ u "]".

(** ** Python values as [json.loads] builds them *)

(** A float is kept as the decimal its literal denotes,
    [(-1)^neg * mant * 10^exp10]; Python rounds it to a binary64, to
    [inf] when the decimal is out of range, which only [float_is_zero]
    below observes. *)
Inductive pyfloat :=
| FNaN
| FInf (neg : bool)
| FDec (neg : bool) (mant : N) (exp10 : Z).

Inductive pyval :=
| PyNone
| PyBool (b : bool)
| PyInt (z : Z)
| PyFloat (f : pyfloat)
| PyStr (s : pystr)
| PyList (l : list pyval)
| PyDict (d : list (pystr * pyval)).

(** *** Dictionaries: association lists in insertion order, keys unique *)

Section Dict.
Context {K V : Type}.
Variable eqb : K -> K -> bool.

Fixpoint dict_get (k : K) (d : list (K * V)) : option V :=
  match d with
  | [] => None
  | (k', v) :: d' => if eqb k k' then Some v else dict_get k d'
  end.

(** [d[k] = v]: an existing key keeps its place, a new key goes last. *)
Fixpoint dict_set (k : K) (v : V) (d : list (K * V)) : list (K * V) :=
  match d with
  | [] => [(k, v)]
  | (k', v') :: d' =>
      if eqb k k' then (k', v) :: d' else (k', v') :: dict_set k v d'
  end.

Definition dict_has (k : K) (d : list (K * V)) : bool :=
  match dict_get k d with Some _ => true | None => false end.
End Dict.

(** The double nearest to [mant * 10^exp10] is zero exactly when that
    decimal is at most [2^-1075], half the least subnormal. *)
Definition float_is_zero (f : pyfloat) : bool :=
  match f with
  | FNaN | FInf _ => false
  | FDec _ mant e =>
      if 0 <=? e then N.eqb mant 0
      else Z.of_N mant * 2 ^ 1075 <=? 10 ^ (- e)
  end.

(** Truth value testing, [bool(v)]. *)
Definition truthy (v : pyval) : bool :=
  match v with
  | PyNone => false
  | PyBool b => b
  | PyInt z => negb (z =? 0)
  | PyFloat f => negb (float_is_zero f)
  | PyStr s => match s with [] => false | _ => true end
  | PyList l => match l with [] => false | _ => true end
  | PyDict d => match d with [] => false | _ => true end
  end.

(** ** Exceptions *)

Inductive exn_class :=
| KeyboardInterrupt
| SystemExit
| GeneratorExit
| IndexError
| KeyError
| TypeError
| AttributeError
| ValueError
| JSONDecodeError
| RecursionError
| LibraryError (name : string).

(** [isinstance(e, Exception)]: everything but the three classes that
    derive from [BaseException] directly. *)
Definition isinstance_Exception (c : exn_class) : bool :=
  match c with
  | KeyboardInterrupt | SystemExit | GeneratorExit => false
  | _ => true
  end.

(** [isinstance(e, json.JSONDecodeError)]: the class derives from
    [ValueError], and neither [ValueError] itself nor [RecursionError]
    is an instance of it. *)
Definition isinstance_JSONDecodeError (c : exn_class) : bool :=
  match c with
  | JSONDecodeError => true
  | _ => false
  end.

Record exn := mkExn { exn_cls : exn_class; exn_msg : pystr }.

Inductive result (A : Type) :=
| Ok (a : A)
| Raise (e : exn).
Arguments Ok {A} a.
Arguments Raise {A} e.

(** ** The world outside the interpreter *)

(** A page of a document: its text, or the error that loading the page
    or extracting its text raises. *)
Record document := mkDocument {
  doc_name : pystr;
  doc_pages : list (result pystr)
}.

Record part := mkPart { text : pystr }.
Record content := mkContent { parts : list part }.
Record candidate := mkCandidate { cand_content : content }.
Record response := mkResponse { candidates : list candidate }.

(** What the program does to the outside, in order. *)
Inductive event :=
| EvOpen (path : pystr)
| EvClose (path : pystr)
| EvGenerate (prompt : pystr)
| EvLogError (msg : pystr).

(** [disk] is what [fitz.open] finds at a path; [service] is what the
    model service answers to a prompt, given everything that happened
    before; [stack_room] is how many nested calls the interpreter still
    allows where the response parser runs, its recursion limit less the
    frames in use; [trace] is the history, oldest event first. *)
Record world := mkWorld {
  disk : pystr -> result document;
  service : list event -> pystr -> result response;
  stack_room : nat;
  trace : list event
}.

Definition emit_event (ev : event) (w : world) : world :=
  mkWorld (disk w) (service w) (stack_room w) (trace w ++ [ev]).

(** ** Computations: state passing with exceptions *)

Definition M (A : Type) : Type := world -> result A * world.

Definition ret {A} (a : A) : M A := fun w => (Ok a, w).

Definition raise {A} (e : exn) : M A := fun w => (Raise e, w).

Definition bind {A B} (m : M A) (k : A -> M B) : M B :=
  fun w =>
    match m w with
    | (Ok a, w') => k a w'
    | (Raise e, w') => (Raise e, w')
    end.

Definition lift {A} (r : result A) : M A := fun w => (r, w).

Definition emit (ev : event) : M unit := fun w => (Ok tt, emit_event ev w).

(** [try: body  except C as e: handler e], where [catches] decides
    [isinstance(e, C)]. *)
Definition try_except {A} (body : M A) (catches : exn_class -> bool)
    (handler : exn -> M A) : M A :=
  fun w =>
    match body w with
    | (Ok a, w') => (Ok a, w')
    | (Raise e, w') =>
        if catches (exn_cls e) then handler e w' else (Raise e, w')
    end.

Declare Scope py_scope.
Delimit Scope py_scope with py.
Notation "x <- m ;; k" := (bind m (fun x => k))
  (at level 100, m at next level, right associativity) : py_scope.
Notation "m ;;; k" := (bind m (fun _ => k))
  (at level 100, right associativity) : py_scope.
Open Scope py_scope.

(** [for x in xs: s = body x s] *)
Fixpoint for_each {A S} (xs : list A) (body : A -> S -> M S) (s : S) : M S :=
  match xs with
  | [] => ret s
  | x :: xs' => s' <- body x s ;; for_each xs' body s'
  end.

(** A comprehension whose element expression may raise. *)
Fixpoint map_M {A B} (f : A -> M B) (xs : list A) : M (list B) :=
  match xs with
  | [] => ret []
  | x :: xs' => y <- f x ;; ys <- map_M f xs' ;; ret (y :: ys)
  end.

(** [logger.error(msg)] *)
Definition logger_error (msg : pystr) : M unit := emit (EvLogError msg).

(** [range(n)] *)
Definition range (n : Z) : list Z := map Z.of_nat (seq 0 (Z.to_nat n)).

(** [len(xs)] *)
Definition len {A} (xs : list A) : Z := Z.of_nat (List.length xs).

(** [xs[i]] on a list, for [i >= 0]. *)
Definition list_index {A} (xs : list A) (i : Z) : result A :=
  match nth_error xs (Z.to_nat i) with
  | Some x => Ok x
  | None => Raise (mkExn IndexError (u "list index out of range"))
  end.

(** ** fitz (PyMuPDF) *)

Module fitz.
(** [fitz.open(path)] *)
Definition open (path : pystr) : M document :=
  fun w =>
    match disk w path with
    | Ok d => (Ok d, emit_event (EvOpen (doc_name d)) w)
    | Raise e => (Raise e, w)
    end.

(** [doc.page_count] *)
Definition page_count (doc : document) : Z := len (doc_pages doc).

(** [doc[page_num].get_text()] *)
Definition get_text (doc : document) (page_num : Z) : M pystr :=
  match nth_error (doc_pages doc) (Z.to_nat page_num) with
  | Some r => lift r
  | None => raise (mkExn IndexError (u "page not in document"))
  end.

(** [doc.close()] *)
Definition close (doc : document) : M unit := emit (EvClose (doc_name doc)).
End fitz.

(** ** The processor object *)

Record PDFProcessor := mkPDFProcessor {
  pdf_path : pystr;
  model : pystr;
  BATCH_SIZE : Z
}.

(** [PDFProcessor(pdf_path, gemini_api_key)]: the key goes to the
    client library, and what the service makes of it is part of
    [service]. *)
Definition __init__ (path api_key : pystr) : PDFProcessor :=
  mkPDFProcessor path (u "gemini-1.5-pro-002") 2.

Definition page_map := list (Z * pystr).

Definition _extract_text_from_pdf (self : PDFProcessor) : M page_map :=
  let extracted_text : page_map := [] in
  try_except
    (doc <- fitz.open (pdf_path self) ;;
     extracted_text <-
       for_each (range (fitz.page_count doc))
         (fun page_num extracted_text =>
            text <- fitz.get_text doc page_num ;;
            ret (dict_set Z.eqb (page_num + 1) text extracted_text))
         extracted_text ;;
     fitz.close doc ;;;
     ret extracted_text)
    isinstance_Exception
    (fun e =>
       logger_error (u "Error extracting text from PDF: " ++ exn_msg e) ;;;
       raise e).

(** ** The prompt *)

(** [zip(a, b)] *)
Definition zip {A B} (a : list A) (b : list B) : list (A * B) := combine a b.

Definition _create_prompt (self : PDFProcessor)
    (page_texts : list pystr) (page_numbers : list Z) : M pystr :=
  let combined_text :=
    join [newline]
      (map (fun '(num, text) =>
              u "TEXT FROM PAGE " ++ str_int num ++ u ":" ++ [newline]
                ++ [dquote] ++ text ++ [dquote])
         (zip page_numbers page_texts)) in
  ret (u "
        The following is text extracted from pages " ++ repr_int_list page_numbers ++ u " of a PDF furniture catalog. 
        It contains information for 1 or more products that the company sells. 
        Each product can have 1 or more price tables. Extract each product on the page 
        in the same language (Italian) and output the data as a JSON array, with each 
        product represented as a JSON object with the attributes listed below:
        
        ATTRIBUTES:
        - product_name: name of the product
        - brand_name: name of the brand
        - designer: name of the designer
        - year: year of manufacture
        - type_of_product: type of product (e.g., sofa, table, etc.)
        - all_colors: an array of all colors mentioned for the product
        - page_reference: an object containing the PDF file path as a string and 
          the page numbers of the product as an array

        " ++ combined_text ++ u "
        ").

(** ** The model client *)

Module genai.
(** [model.generate_content(prompt, generation_config=...)]: the
    request goes out, and the service answers or the client raises. *)
Definition generate_content (model_name prompt : pystr) : M response :=
  fun w =>
    (service w (trace w) prompt, emit_event (EvGenerate prompt) w).
End genai.

Definition _parse_text_with_gemini (self : PDFProcessor)
    (page_texts : list pystr) (page_numbers : list Z) : M (option pystr) :=
  try_except
    (prompt <- _create_prompt self page_texts page_numbers ;;
     response <- genai.generate_content (model self) prompt ;;
     cand <- lift (list_index (candidates response) 0) ;;
     p <- lift (list_index (parts (cand_content cand)) 0) ;;
     ret (Some (text p)))
    isinstance_Exception
    (fun e =>
       logger_error (u "Error calling Gemini API: " ++ exn_msg e) ;;;
       ret None).

(** ** re: the fragment of regular expressions the program uses *)

Module re.
Open Scope N_scope.

(** One character position of a pattern. *)
Inductive atom :=
| Lit (c : N)      (* an escaped or ordinary character *)
| Whitespace       (* \s on a str pattern *)
| AnyChar.         (* . under re.DOTALL *)

(** An atom, or an atom under the greedy star. *)
Inductive item :=
| One (a : atom)
| Star (a : atom).

Definition pattern := list item.

(** [str.isspace] on one code point, the class of [\s]. *)
Definition isspace (c : N) : bool :=
  ((9 <=? c) && (c <=? 13)) || ((28 <=? c) && (c <=? 32))
  || (c =? 133) || (c =? 160) || (c =? 5760)
  || ((8192 <=? c) && (c <=? 8202))
  || (c =? 8232) || (c =? 8233) || (c =? 8239) || (c =? 8287)
  || (c =? 12288).

Definition atom_matches (a : atom) (c : N) : bool :=
  match a with
  | Lit c' => c =? c'
  | Whitespace => isspace c
  | AnyChar => true
  end.

(** The greedy star: as many characters of the class as there are,
    given back one by one until the rest of the pattern, [k],
    matches. *)
Fixpoint star_loop (a : atom) (k : pystr -> option pystr) (s : pystr)
    : option pystr :=
  match s with
  | c :: s' =>
      if atom_matches a c then
        match star_loop a k s' with
        | Some m => Some (c :: m)
        | None => k s
        end
      else k s
  | [] => k s
  end.

(** The backtracking matcher anchored at the head of [s]: the text of
    the first match in the engine's order of preference. *)
Fixpoint match_here (p : pattern) (s : pystr) : option pystr :=
  match p with
  | [] => Some []
  | One a :: p' =>
      match s with
      | c :: s' =>
          if atom_matches a c
          then option_map (cons c) (match_here p' s')
          else None
      | [] => None
      end
  | Star a :: p' => star_loop a (match_here p') s
  end.

(** [re.search(p, s)]: the match at the leftmost position that has
    one; [Some m] stands for a match object whose [group(0)] is [m]. *)
Fixpoint search (p : pattern) (s : pystr) : option pystr :=
  match match_here p s with
  | Some m => Some m
  | None =>
      match s with
      | [] => None
      | _ :: s' => search p s'
      end
  end.
End re.

(** The pattern [r'\[\s*{.*}\s*\]'] compiled with [re.DOTALL]. *)
Definition json_array_re : re.pattern :=
  [re.One (re.Lit 91); re.Star re.Whitespace; re.One (re.Lit 123);
   re.Star re.AnyChar;
   re.One (re.Lit 125); re.Star re.Whitespace; re.One (re.Lit 93)].

(** ** json: the decoder behind [json.loads] *)

(** The scanner of CPython, function by function: the grammar it
    accepts, the values it builds, and the two limits of the
    interpreter it runs into: the digits of an [int] and the depth of
    nested calls. *)

Module json.
Open Scope N_scope.

(** The outcome of scanning a prefix of the input: a value and the
    input after it, the message of a [JSONDecodeError], or an error of
    another class.  [OutOfFuel] belongs to the two loops below, whose
    fuel is never the limit (see [scan_once_progresses]). *)
Inductive parse (A : Type) :=
| Parsed (a : A) (rest : pystr)
| Invalid (msg : string)
| Raises (e : exn)
| OutOfFuel.
Arguments Parsed {A} a rest.
Arguments Invalid {A} msg.
Arguments Raises {A} e.
Arguments OutOfFuel {A}.

(** [sys.get_int_max_str_digits()], as the interpreter starts. *)
Definition int_max_str_digits : nat := 4300.

(** [str(n)] for a count. *)
Definition decimal (n : nat) : string := NilEmpty.string_of_uint (Nat.to_uint n).

(** What [int] raises for a literal of [n] digits, [n] over the limit. *)
Definition digits_error (n : nat) : exn :=
  mkExn ValueError
    (u ("Exceeds the limit (" ++ decimal int_max_str_digits
          ++ " digits) for integer string conversion: value has "
          ++ decimal n
          ++ " digits; use sys.set_int_max_str_digits() to increase the limit")%string).

(** What the scanner raises when it may not enter one more array or
    object. *)
Definition recursion_error (what : string) : exn :=
  mkExn RecursionError
    (u ("maximum recursion depth exceeded while decoding a JSON " ++ what
          ++ " from a unicode string")%string).

Definition is_ws (c : N) : bool :=
  (c =? 32) || (c =? 9) || (c =? 10) || (c =? 13).

Fixpoint skip_ws (s : pystr) : pystr :=
  match s with
  | c :: s' => if is_ws c then skip_ws s' else s
  | [] => []
  end.

Definition is_digit (c : N) : bool := (48 <=? c) && (c <=? 57).

Definition hex_digit (c : N) : option N :=
  if is_digit c then Some (c - 48)
  else if (97 <=? c) && (c <=? 102) then Some (c - 87)
  else if (65 <=? c) && (c <=? 70) then Some (c - 55)
  else None.

Definition hex4 (a b c d : N) : option N :=
  match hex_digit a, hex_digit b, hex_digit c, hex_digit d with
  | Some x, Some y, Some z, Some t => Some (((x * 16 + y) * 16 + z) * 16 + t)
  | _, _, _, _ => None
  end.

Definition is_high_surrogate (c : N) : bool := (55296 <=? c) && (c <=? 56319).
Definition is_low_surrogate (c : N) : bool := (56320 <=? c) && (c <=? 57343).
Definition join_surrogates (hi lo : N) : N :=
  65536 + (hi - 55296) * 1024 + (lo - 56320).

(** The character a one-letter escape stands for. *)
Definition simple_escape (c : N) : option N :=
  if c =? 34 then Some 34          (* the quote *)
  else if c =? 92 then Some 92     (* the backslash *)
  else if c =? 47 then Some 47     (* the solidus *)
  else if c =? 98 then Some 8      (* backspace *)
  else if c =? 102 then Some 12    (* form feed *)
  else if c =? 110 then Some 10    (* line feed *)
  else if c =? 114 then Some 13    (* carriage return *)
  else if c =? 116 then Some 9     (* tab *)
  else None.

Definition push (c : N) (r : option (pystr * pystr)) : option (pystr * pystr) :=
  match r with
  | Some (str, rest) => Some (c :: str, rest)
  | None => None
  end.

(** [scanstring], strict mode, from just after the opening quote:
    the decoded string and the input after the closing quote. *)
Fixpoint scanstring (s : pystr) : option (pystr * pystr) :=
  match s with
  | [] => None
  | c :: s' =>
      if c =? 34 then Some ([], s')
      else if c =? 92 then
        match s' with
        | [] => None
        | e :: s'' =>
            if e =? 117 then
              match s'' with
              | a :: b :: c4 :: d :: rest =>
                  match hex4 a b c4 d with
                  | None => None
                  | Some hi =>
                      let single := push hi (scanstring rest) in
                      if is_high_surrogate hi then
                        match rest with
                        | b1 :: u1 :: e1 :: f1 :: g1 :: h1 :: rest2 =>
                            if (b1 =? 92) && (u1 =? 117) then
                              match hex4 e1 f1 g1 h1 with
                              | None => None
                              | Some lo =>
                                  if is_low_surrogate lo
                                  then push (join_surrogates hi lo)
                                         (scanstring rest2)
                                  else single
                              end
                            else single
                        | _ => single
                        end
                      else single
                  end
              | _ => None
              end
            else
              match simple_escape e with
              | Some c' => push c' (scanstring s'')
              | None => None
              end
        end
      else if c <=? 31 then None
      else push c (scanstring s')
  end.

(** The longest run of decimal digits at the head of the input. *)
Fixpoint span_digits (s : pystr) : list N * pystr :=
  match s with
  | c :: s' =>
      if is_digit c
      then let '(ds, rest) := span_digits s' in (c - 48 :: ds, rest)
      else ([], s)
  | [] => ([], [])
  end.

Definition number_of_digits (ds : list N) : N :=
  fold_left (fun acc d => acc * 10 + d) ds 0.

(** The integer part: [0], or a digit [1-9] and more digits. *)
Definition int_part (s : pystr) : option (list N * pystr) :=
  match s with
  | c :: s' =>
      if c =? 48 then Some ([0], s')
      else if is_digit c then
        let '(ds, rest) := span_digits s' in Some (c - 48 :: ds, rest)
      else None
  | [] => None
  end.

(** The fraction, read only when a digit follows the point. *)
Definition frac_part (s : pystr) : option (list N * pystr) :=
  match s with
  | c :: s' =>
      if c =? 46 then
        match span_digits s' with
        | ([], _) => None
        | (ds, rest) => Some (ds, rest)
        end
      else None
  | [] => None
  end.

(** The exponent, read only when it has a digit. *)
Definition exp_part (s : pystr) : option (Z * pystr) :=
  match s with
  | c :: s' =>
      if (c =? 101) || (c =? 69) then
        let '(neg, s'') :=
          match s' with
          | sg :: t =>
              if sg =? 45 then (true, t)
              else if sg =? 43 then (false, t)
              else (false, s')
          | [] => (false, s')
          end in
        match span_digits s'' with
        | ([], _) => None
        | (ds, rest) =>
            let e := Z.of_N (number_of_digits ds) in
            Some (if neg then (- e)%Z else e, rest)
        end
      else None
  | [] => None
  end.

(** A number literal: an [int] unless it has a fraction or an
    exponent.  [int] refuses a literal with more digits than the limit;
    [float] has no such limit. *)
Definition match_number (s : pystr) : parse pyval :=
  let '(neg, s1) :=
    match s with
    | c :: s' => if c =? 45 then (true, s') else (false, s)
    | [] => (false, s)
    end in
  match int_part s1 with
  | None => Invalid "Expecting value"
  | Some (ids, s2) =>
      let '(fds, s3) :=
        match frac_part s2 with
        | Some (fds, s3) => (Some fds, s3)
        | None => (None, s2)
        end in
      let '(ex, s4) :=
        match exp_part s3 with
        | Some (e, s4) => (Some e, s4)
        | None => (None, s3)
        end in
      match fds, ex with
      | None, None =>
          if (int_max_str_digits <? List.length ids)%nat
          then Raises (digits_error (List.length ids))
          else
            let n := Z.of_N (number_of_digits ids) in
            Parsed (PyInt (if neg then (- n)%Z else n)) s4
      | _, _ =>
          let fds' := match fds with Some l => l | None => [] end in
          let e := match ex with Some e => e | None => 0%Z end in
          Parsed (PyFloat (FDec neg (number_of_digits (ids ++ fds'))
                             (e - Z.of_nat (List.length fds'))%Z)) s4
      end
  end.

(** The elements of an array from the first one on, up to and
    including the closing bracket. *)
Fixpoint array_loop (scan : pystr -> parse pyval) (fuel : nat)
    (s : pystr) (values : list pyval) : parse pyval :=
  match fuel with
  | O => OutOfFuel
  | S fuel' =>
      match scan s with
      | Parsed v rest =>
          let values := values ++ [v] in
          match skip_ws rest with
          | c :: rest' =>
              if c =? 93 then Parsed (PyList values) rest'
              else if c =? 44
              then array_loop scan fuel' (skip_ws rest') values
              else Invalid "Expecting ',' delimiter"
          | [] => Invalid "Expecting ',' delimiter"
          end
      | Invalid msg => Invalid msg
      | Raises e => Raises e
      | OutOfFuel => OutOfFuel
      end
  end.

(** The members of an object from the first key on, up to and
    including the closing brace. *)
Fixpoint object_loop (scan : pystr -> parse pyval) (fuel : nat)
    (s : pystr) (pairs : list (pystr * pyval)) : parse pyval :=
  match fuel with
  | O => OutOfFuel
  | S fuel' =>
      match s with
      | q :: s1 =>
          if q =? 34 then
            match scanstring s1 with
            | None => Invalid "Invalid string"
            | Some (key, s2) =>
                match skip_ws s2 with
                | c :: s3 =>
                    if c =? 58 then
                      match scan (skip_ws s3) with
                      | Parsed v rest =>
                          let pairs := dict_set pystr_eqb key v pairs in
                          match skip_ws rest with
                          | c' :: rest' =>
                              if c' =? 125 then Parsed (PyDict pairs) rest'
                              else if c' =? 44
                              then object_loop scan fuel' (skip_ws rest') pairs
                              else Invalid "Expecting ',' delimiter"
                          | [] => Invalid "Expecting ',' delimiter"
                          end
                      | Invalid msg => Invalid msg
                      | Raises e => Raises e
                      | OutOfFuel => OutOfFuel
                      end
                    else Invalid "Expecting ':' delimiter"
                | [] => Invalid "Expecting ':' delimiter"
                end
            end
          else Invalid "Expecting property name enclosed in double quotes"
      | [] => Invalid "Expecting property name enclosed in double quotes"
      end
  end.

(** [scan_once]: one JSON value at the head of the input.  Entering an
    array or an object is a nested call: [room] is how many of them
    the interpreter still allows. *)
Fixpoint scan_once (room : nat) (s : pystr) : parse pyval :=
  match s with
  | [] => Invalid "Expecting value"
  | c :: s' =>
      if c =? 34 then
        match scanstring s' with
        | Some (str, rest) => Parsed (PyStr str) rest
        | None => Invalid "Invalid string"
        end
      else if c =? 123 then
        match room with
        | O => Raises (recursion_error "object")
        | S room' =>
            match skip_ws s' with
            | c' :: rest =>
                if c' =? 125 then Parsed (PyDict []) rest
                else object_loop (scan_once room') (List.length s)
                       (skip_ws s') []
            | [] => Invalid "Expecting property name enclosed in double quotes"
            end
        end
      else if c =? 91 then
        match room with
        | O => Raises (recursion_error "array")
        | S room' =>
            match skip_ws s' with
            | c' :: rest =>
                if c' =? 93 then Parsed (PyList []) rest
                else array_loop (scan_once room') (List.length s)
                       (skip_ws s') []
            | [] => Invalid "Expecting value"
            end
        end
      else if startswith (u "null") s then
        Parsed PyNone (skipn 4 s)
      else if startswith (u "true") s then
        Parsed (PyBool true) (skipn 4 s)
      else if startswith (u "false") s then
        Parsed (PyBool false) (skipn 5 s)
      else if startswith (u "NaN") s then
        Parsed (PyFloat FNaN) (skipn 3 s)
      else if startswith (u "Infinity") s then
        Parsed (PyFloat (FInf false)) (skipn 8 s)
      else if startswith (u "-Infinity") s then
        Parsed (PyFloat (FInf true)) (skipn 9 s)
      else match_number s
  end.

Definition decode_error (msg : string) : exn := mkExn JSONDecodeError (u msg).

(** [JSONDecoder.decode(s)]: one value between optional whitespace, and
    nothing after it.  An error of the scanner that is no
    [JSONDecodeError] passes through as it is.  The last case never
    arises (see [decode_raises]). *)
Definition decode (room : nat) (s : pystr) : result pyval :=
  match scan_once room (skip_ws s) with
  | Parsed v rest =>
      match skip_ws rest with
      | [] => Ok v
      | _ :: _ => Raise (decode_error "Extra data")
      end
  | Invalid msg => Raise (decode_error msg)
  | Raises e => Raise e
  | OutOfFuel => Raise (mkExn (LibraryError "OutOfFuel") [])
  end.

(** [json.loads(s)] for a [str], with the room the interpreter has
    where it is called. *)
Definition loads (s : pystr) : M pyval :=
  fun w =>
    if startswith [65279] s
    then (Raise (decode_error "Unexpected UTF-8 BOM (decode using utf-8-sig)"), w)
    else (decode (stack_room w) s, w).
End json.

(** ** Operations of the interpreter on decoded values *)

(** [type(v).__name__] *)
Definition type_name (v : pyval) : string :=
  match v with
  | PyNone => "NoneType"
  | PyBool _ => "bool"
  | PyInt _ => "int"
  | PyFloat _ => "float"
  | PyStr _ => "str"
  | PyList _ => "list"
  | PyDict _ => "dict"
  end.

Definition type_error (msg : string) : exn := mkExn TypeError (u msg).

(** [key in container], for a [str] key. *)
Definition py_contains (key : pystr) (container : pyval) : result bool :=
  match container with
  | PyDict d => Ok (dict_has pystr_eqb key d)
  | PyList l =>
      Ok (existsb (fun v => match v with
                            | PyStr s => pystr_eqb s key
                            | _ => false
                            end) l)
  | PyStr s => Ok (str_contains key s)
  | _ =>
      Raise (type_error
               ("argument of type '" ++ type_name container
                  ++ "' is not iterable")%string)
  end.

(** [container[key]], for a [str] key. *)
Definition py_getitem (container : pyval) (key : pystr) : result pyval :=
  match container with
  | PyDict d =>
      match dict_get pystr_eqb key d with
      | Some v => Ok v
      | None => Raise (mkExn KeyError key)
      end
  | PyList _ =>
      Raise (type_error "list indices must be integers or slices, not str")
  | PyStr _ =>
      Raise (type_error "string indices must be integers, not 'str'")
  | _ =>
      Raise (type_error
               ("'" ++ type_name container
                  ++ "' object is not subscriptable")%string)
  end.

(** [container[key] = v], for a [str] key: the container after the
    assignment. *)
Definition py_setitem (container : pyval) (key : pystr) (v : pyval)
    : result pyval :=
  match container with
  | PyDict d => Ok (PyDict (dict_set pystr_eqb key v d))
  | PyList _ =>
      Raise (type_error "list indices must be integers or slices, not str")
  | _ =>
      Raise (type_error
               ("'" ++ type_name container
                  ++ "' object does not support item assignment")%string)
  end.

(** The elements a [for] loop or [list.extend] draws from a value. *)
Definition py_iter (v : pyval) : result (list pyval) :=
  match v with
  | PyList l => Ok l
  | PyDict d => Ok (map (fun kv => PyStr (fst kv)) d)
  | PyStr s => Ok (map (fun c => PyStr [c]) s)
  | _ =>
      Raise (type_error
               ("'" ++ type_name v ++ "' object is not iterable")%string)
  end.

(** ** The response parser *)

Definition _extract_json_from_response (self : PDFProcessor)
    (response_text : pystr) : M (option pyval) :=
  let json_match := re.search json_array_re response_text in
  match json_match with
  | None => ret None
  | Some group0 =>
      try_except
        (data <- json.loads group0 ;; ret (Some data))
        isinstance_JSONDecodeError
        (fun _ =>
           logger_error (u "Error decoding JSON from LLM response") ;;;
           ret None)
  end.

(** ** One batch *)

(** The body of the loop over the decoded records: the record after
    the assignment, which happens in place. *)
Definition update_product (self : PDFProcessor) (page_numbers : list Z)
    (product : pyval) : M pyval :=
  present <- lift (py_contains (u "page_reference") product) ;;
  if negb present then
    first <- lift (list_index page_numbers 0) ;;
    lift (py_setitem product (u "page_reference")
            (PyDict [(u "file_path", PyStr (pdf_path self));
                     (u "page_numbers", PyList [PyInt first])]))
  else
    ref <- lift (py_getitem product (u "page_reference")) ;;
    ref' <- lift (py_setitem ref (u "file_path") (PyStr (pdf_path self))) ;;
    (* [ref] is the object [product] holds under the key *)
    lift (py_setitem product (u "page_reference") ref').

(** [for product in json_batch_data: ...]: a list has its elements
    updated in place; the elements drawn from a dict or a str are
    strings, which nothing can update. *)
Definition update_products (self : PDFProcessor) (page_numbers : list Z)
    (json_batch_data : pyval) : M pyval :=
  match json_batch_data with
  | PyList products =>
      products' <- map_M (update_product self page_numbers) products ;;
      ret (PyList products')
  | _ =>
      items <- lift (py_iter json_batch_data) ;;
      map_M (update_product self page_numbers) items ;;;
      ret json_batch_data
  end.

Definition _process_batch (self : PDFProcessor)
    (page_texts : list pystr) (page_numbers : list Z) : M (option pyval) :=
  structured_data <- _parse_text_with_gemini self page_texts page_numbers ;;
  match structured_data with
  | None | Some [] => ret None
  | Some structured_data =>
      json_batch_data <- _extract_json_from_response self structured_data ;;
      match json_batch_data with
      | Some data =>
          if truthy data then
            data' <- update_products self page_numbers data ;;
            ret (Some data')
          else ret None
      | None => ret None
      end
  end.

(** ** The loop over the pages *)

(** [if products: all_products.extend(products)] *)
Definition extend_products (all_products : list pyval)
    (products : option pyval) : M (list pyval) :=
  match products with
  | Some v =>
      if truthy v
      then items <- lift (py_iter v) ;; ret (all_products ++ items)
      else ret all_products
  | None => ret all_products
  end.

Section Batches.
(** The method the loop calls through [self], and the batch size it
    reads there. *)
Variable process_batch : list pystr -> list Z -> M (option pyval).
Variable batch_size : Z.

(** The loop variables. *)
Record loop_state := mkLoop {
  all_products : list pyval;
  page_texts_batch : list pystr;
  page_numbers_batch : list Z
}.

Definition loop_body (item : Z * pystr) (st : loop_state) : M loop_state :=
  let '(page_num, page_text) := item in
  let page_texts_batch := page_texts_batch st ++ [page_text] in
  let page_numbers_batch := page_numbers_batch st ++ [page_num] in
  if len page_texts_batch =? batch_size then
    products <- process_batch page_texts_batch page_numbers_batch ;;
    all_products <- extend_products (all_products st) products ;;
    ret (mkLoop all_products [] [])
  else ret (mkLoop (all_products st) page_texts_batch page_numbers_batch).

Definition process_text_batches (extracted_text : page_map)
    : M (list pyval) :=
  st <- for_each extracted_text loop_body (mkLoop [] [] []) ;;
  match page_texts_batch st with
  | _ :: _ =>
      products <-
        process_batch (page_texts_batch st) (page_numbers_batch st) ;;
      extend_products (all_products st) products
  | [] => ret (all_products st)
  end.

(** The batches the loop hands to [process_batch], in order, when it
    starts on [items] with a batch already begun. *)
Fixpoint batches_from (items : page_map) (texts : list pystr)
    (nums : list Z) : list (list pystr * list Z) :=
  match items with
  | [] =>
      match texts with
      | _ :: _ => [(texts, nums)]
      | [] => []
      end
  | (page_num, page_text) :: rest =>
      let texts := texts ++ [page_text] in
      let nums := nums ++ [page_num] in
      if len texts =? batch_size
      then (texts, nums) :: batches_from rest [] []
      else batches_from rest texts nums
  end.

(** The calls of [process_batch] on a list of batches, one after the
    other, each result appended to the products so far. *)
Fixpoint run_batches (bs : list (list pystr * list Z))
    (all_products : list pyval) : M (list pyval) :=
  match bs with
  | [] => ret all_products
  | (texts, nums) :: bs' =>
      products <- process_batch texts nums ;;
      all_products <- extend_products all_products products ;;
      run_batches bs' all_products
  end.
End Batches.

Definition batches (batch_size : Z) (extracted_text : page_map)
    : list (list pystr * list Z) :=
  batches_from batch_size extracted_text [] [].

Definition _process_text_batches (self : PDFProcessor)
    (extracted_text : page_map) : M (list pyval) :=
  process_text_batches (_process_batch self) (BATCH_SIZE self) extracted_text.

Definition extract_product_info (self : PDFProcessor) : M (list pyval) :=
  extracted_text <- _extract_text_from_pdf self ;;
  all_products <- _process_text_batches self extracted_text ;;
  ret all_products.

(** * The vocabulary of the properties *)

(** ** Histories and page maps *)

(** Handles opened and not closed in a history. *)
Fixpoint open_handles (tr : list event) : Z :=
  match tr with
  | [] => 0
  | EvOpen _ :: tr' => open_handles tr' + 1
  | EvClose _ :: tr' => open_handles tr' - 1
  | _ :: tr' => open_handles tr'
  end.

(** Requests sent to the model service in a history. *)
Fixpoint requests (tr : list event) : list pystr :=
  match tr with
  | [] => []
  | EvGenerate p :: tr' => p :: requests tr'
  | _ :: tr' => requests tr'
  end.

(** The page map of a document whose pages hold [texts]: page [i + 1]
    for the text at index [i], numbered from [first]. *)
Fixpoint number_pages (first : Z) (texts : list pystr) : page_map :=
  match texts with
  | [] => []
  | t :: texts' => (first, t) :: number_pages (first + 1) texts'
  end.

(** The body of the page loop of the extractor. *)
Definition page_body (doc : document) (page_num : Z) (extracted_text : page_map)
    : M page_map :=
  text <- fitz.get_text doc page_num ;;
  ret (dict_set Z.eqb (page_num + 1) text extracted_text).

(** The world after the handler of the extractor ran on [e]: an
    [Exception] is logged, anything else passes through. *)
Definition after_extract_error (e : exn) (w : world) : world :=
  if isinstance_Exception (exn_cls e)
  then emit_event
         (EvLogError (u "Error extracting text from PDF: " ++ exn_msg e)) w
  else w.

(** What follows the [for] loop: the pages that remain. *)
Definition remaining_pages
    (process_batch : list pystr -> list Z -> M (option pyval))
    (st : loop_state) : M (list pyval) :=
  match page_texts_batch st with
  | _ :: _ =>
      products <-
        process_batch (page_texts_batch st) (page_numbers_batch st) ;;
      extend_products (all_products st) products
  | [] => ret (all_products st)
  end.

(** The size of the last batch of [P] pages cut by [N]. *)
Definition last_size (N P : Z) : Z := if P mod N =? 0 then N else P mod N.

(** ** Patterns and scanners *)

(** The language of a pattern. *)
Inductive matches : re.pattern -> pystr -> Prop :=
| matches_nil : matches [] []
| matches_one a c p m :
    re.atom_matches a c = true ->
    matches p m ->
    matches (re.One a :: p) (c :: m)
| matches_star a run p m :
    Forall (fun c => re.atom_matches a c = true) run ->
    matches p m ->
    matches (re.Star a :: p) (run ++ m).

(** A bracket, whitespace, a brace, anything, a brace, whitespace, a
    bracket. *)
Definition array_shape (m : pystr) : Prop :=
  exists ws1 body ws2,
    m = 91%N :: ws1 ++ 123%N :: body ++ 125%N :: ws2 ++ [93%N]
    /\ Forall (fun c => re.isspace c = true) ws1
    /\ Forall (fun c => re.isspace c = true) ws2.

(** [m] occurs in [s] after [pre]. *)
Definition occurs_at (s pre m : pystr) : Prop :=
  exists post, s = pre ++ m ++ post.

(** A run of whitespace. *)
Definition spaces : pystr -> Prop := Forall (fun c => re.isspace c = true).

(** The end of the pattern: a brace, whitespace, a bracket. *)
Definition closing : re.pattern :=
  [re.One (re.Lit 125); re.Star re.Whitespace; re.One (re.Lit 93)].

(** A scanner that neither runs out of fuel nor returns more input
    than it was given, and that raises only on an input longer than
    the limit it ran into. *)
Definition progresses (room : nat) (r : json.parse pyval) (s : pystr) : Prop :=
  r <> json.OutOfFuel
  /\ (forall v rest, r = json.Parsed v rest ->
        (List.length rest < List.length s)%nat)
  /\ (forall e, r = json.Raises e ->
        (exn_cls e = ValueError
         /\ (json.int_max_str_digits < List.length s)%nat)
        \/ (exn_cls e = RecursionError /\ (room < List.length s)%nat)).

(** ** Records *)

(** The keys the post-processing reads and writes. *)
Definition page_reference : pystr := u "page_reference".

Definition file_path : pystr := u "file_path".

Definition page_numbers : pystr := u "page_numbers".

(** A record the loop can update: an object whose [page_reference], if
    it has one, is an object. *)
Definition updatable (product : pyval) : bool :=
  match product with
  | PyDict d =>
      match dict_get pystr_eqb page_reference d with
      | None | Some (PyDict _) => true
      | Some _ => false
      end
  | _ => false
  end.

(** A record that carries [path] as its [page_reference.file_path]. *)
Definition has_file_path (path : pystr) (product : pyval) : Prop :=
  exists d ref,
    product = PyDict d
    /\ dict_get pystr_eqb page_reference d = Some (PyDict ref)
    /\ dict_get pystr_eqb file_path ref = Some (PyStr path).

(** ** Calls and their outcomes *)

(** The room of the example worlds: the recursion limit an interpreter
    starts with, less some frames in use. *)
Definition default_room : nat := 990.

(** A world in which nothing has happened. *)
Definition empty_world : world :=
  mkWorld (fun _ => Ok (mkDocument [] []))
          (fun _ _ => Ok (mkResponse [])) default_room [].

(** The string the prompt builder returns for a batch. *)
Definition prompt_text (page_texts : list pystr) (page_nums : list Z) : pystr :=
  match fst (_create_prompt (__init__ [] []) page_texts page_nums empty_world)
  with
  | Ok prompt => prompt
  | Raise _ => []
  end.

(** The text of the first part of the first candidate, if there is one. *)
Definition first_text (r : response) : option pystr :=
  match candidates r with
  | c :: _ =>
      match parts (cand_content c) with
      | p :: _ => Some (text p)
      | [] => None
      end
  | [] => None
  end.

(** The world after a request whose outcome the model caller logged. *)
Definition after_call_error (prompt msg : pystr) (w : world) : world :=
  emit_event (EvLogError (u "Error calling Gemini API: " ++ msg))
    (emit_event (EvGenerate prompt) w).

(** The world after the parser logged a text that does not decode. *)
Definition after_decode_error (w : world) : world :=
  emit_event (EvLogError (u "Error decoding JSON from LLM response")) w.

(** The computation ended in a [TypeError]. *)
Definition raises_TypeError {A} (r : result A) : Prop :=
  exists msg, r = Raise (mkExn TypeError msg).

(** The document cannot be opened, or one of its pages cannot be read. *)
Inductive pdf_failure (w : world) (path : pystr) (e : exn) : Prop :=
| open_failure :
    disk w path = Raise e -> pdf_failure w path e
| read_failure doc texts rest :
    disk w path = Ok doc ->
    doc_pages doc = map Ok texts ++ Raise e :: rest ->
    pdf_failure w path e.

(** What each batch of a list hands back when none of them raises. *)
Inductive batch_results (self : PDFProcessor)
  : list (list pystr * list Z) -> world -> list (option pyval) -> world -> Prop :=
| results_nil w : batch_results self [] w [] w
| results_cons page_texts nums bs w r w1 rs w' :
    _process_batch self page_texts nums w = (Ok r, w1) ->
    batch_results self bs w1 rs w' ->
    batch_results self ((page_texts, nums) :: bs) w (r :: rs) w'.

(** The records in what a batch hands back. *)
Definition records_of (r : option pyval) : list pyval :=
  match r with
  | Some (PyList products) => products
  | _ => []
  end.

(** ** Inputs for the examples *)

(** A JSON string literal. *)
Definition quoted (s : string) : pystr := [dquote] ++ u s ++ [dquote].

Definition reply_with (t : pystr) : response :=
  mkResponse [mkCandidate (mkContent [mkPart t])].

Definition timeout_error : exn :=
  mkExn (LibraryError "DeadlineExceeded") (u "504 Deadline Exceeded").

Definition catalog : pystr := u "catalog.pdf".

Definition processor : PDFProcessor := __init__ catalog (u "api-key").

(** A three-page catalog on disk, and a service that answers every
    request with [reply]. *)
Definition three_pages : document :=
  mkDocument catalog [Ok (u "Sofa X"); Ok (u "Tavolo Y"); Ok (u "Sedia Z")].

Definition world_replying (reply : result response) : world :=
  mkWorld (fun _ => Ok three_pages) (fun _ _ => reply) default_room [].

(** A catalog whose second page cannot be read. *)
Definition damaged : document :=
  mkDocument catalog
    [Ok (u "Sofa X");
     Raise (mkExn (LibraryError "FileDataError") (u "cannot load page"))].

Definition damaged_world : world :=
  mkWorld (fun _ => Ok damaged) (fun _ _ => Ok (reply_with [])) default_room
    [].

(** The reply of scenario 3. *)
Definition sofa_reply : pystr :=
  u "Sure! Here is the data: [{" ++ quoted "product_name" ++ u ": "
    ++ quoted "Sofa X" ++ u "}]".

(** The page map of the three-page catalog. *)
Definition three_page_map : page_map :=
  number_pages 1 [u "Sofa X"; u "Tavolo Y"; u "Sedia Z"].

(** A record with a [page_reference] that is not an object: the list
    of pages itself. *)
Definition bare_reference : list (pystr * pyval) :=
  [(u "product_name", PyStr (u "Sofa X"));
   (page_reference, PyList [PyInt 3])].

(** A record with a [page_reference] as the prompt asks for it. *)
Definition referenced : list (pystr * pyval) :=
  [(u "product_name", PyStr (u "Sofa X"));
   (page_reference,
    PyDict [(file_path, PyStr (u "somewhere.pdf"));
            (page_numbers, PyList [PyInt 7])])].

(** A reply whose array holds a number between two records. *)
Definition mixed_reply : pystr :=
  u "[{" ++ quoted "product_name" ++ u ": " ++ quoted "Sofa X" ++ u "}, 7, {"
    ++ quoted "product_name" ++ u ": " ++ quoted "Tavolo Y" ++ u "}]".

(** ** Further vocabulary *)

(** The section of the prompt that holds one page. *)
Definition prompt_section (num : Z) (page_text : pystr) : pystr :=
  u "TEXT FROM PAGE " ++ str_int num ++ u ":" ++ [newline]
    ++ [dquote] ++ page_text ++ [dquote].

(** What the loop body makes of a record it can update. *)
Definition updated_record (path : pystr) (first : Z) (product : pyval)
    : pyval :=
  match product with
  | PyDict d =>
      match dict_get pystr_eqb page_reference d with
      | None =>
          PyDict (d ++ [(page_reference,
                         PyDict [(file_path, PyStr path);
                                 (page_numbers, PyList [PyInt first])])])
      | Some (PyDict ref) =>
          PyDict (dict_set pystr_eqb page_reference
                    (PyDict (dict_set pystr_eqb file_path (PyStr path) ref))
                    d)
      | Some _ => product
      end
  | _ => product
  end.

(** The prompt of a batch. *)
Definition batch_prompt (b : list pystr * list Z) : pystr :=
  prompt_text (fst b) (snd b).

(** An interrupt from the keyboard, which is no [Exception]. *)
Definition interrupt : exn := mkExn KeyboardInterrupt [].

(** A reply whose array is no JSON. *)
Definition broken_reply : pystr := u "[{oops}]".

(** The error of opening a file that is not there. *)
Definition missing_file : exn :=
  mkExn (LibraryError "FileNotFoundError") (u "no such file: 'catalog.pdf'").

(** A world whose disk holds no document. *)
Definition world_without_file : world :=
  mkWorld (fun _ => Raise missing_file) (fun _ _ => Ok (reply_with []))
    default_room [].

(** Two arrays in one reply. *)
Definition two_arrays : pystr := u "[{}] and [{}]".

(** A reply with a record that has its reference and one that has
    none. *)
Definition two_records_reply : pystr :=
  u "[{" ++ quoted "page_reference" ++ u ": {" ++ quoted "page_numbers"
    ++ u ": [2]}}, {" ++ quoted "product_name" ++ u ": "
    ++ quoted "Tavolo Y" ++ u "}]".

(** A reply that is one object and no array. *)
Definition bare_object_reply : pystr :=
  u "{" ++ quoted "product_name" ++ u ": " ++ quoted "Sofa X" ++ u "}".

(** A reply whose record holds an integer of 4301 digits. *)
Definition long_number_reply : pystr :=
  u "[{" ++ quoted "year" ++ u ": " ++ List.repeat 49%N 4301 ++ u "}]".

(** A reply whose record holds arrays nested a thousand deep. *)
Definition deep_reply : pystr :=
  u "[{" ++ quoted "sizes" ++ u ": " ++ List.repeat 91%N 1000
    ++ List.repeat 93%N 1000 ++ u "}]".

(** A reply in prose. *)
Definition prose_reply : pystr := u "I found no products on these pages.".

(** * Properties of the model *)

Ltac norm_app_in H :=
  repeat (rewrite <- app_assoc in H || rewrite <- app_comm_cons in H);
  cbn [app] in H.

Ltac break_match_in H :=
  repeat (cbv zeta in H;
          match type of H with
          | context [match ?x with _ => _ end] => destruct x eqn:?
          end;
          try discriminate H).

(** ** The extractor *)

Lemma open_handles_app tr1 tr2 :
  open_handles (tr1 ++ tr2) = open_handles tr1 + open_handles tr2.
Proof.
  induction tr1 as [|ev tr1 IH]; simpl; [lia|].
  destruct ev; rewrite ?IH; lia.
Qed.

Lemma requests_app tr1 tr2 : requests (tr1 ++ tr2) = requests tr1 ++ requests tr2.
Proof.
  induction tr1 as [|ev tr1 IH]; simpl; [reflexivity|].
  destruct ev; rewrite ?IH; reflexivity.
Qed.

Lemma dict_set_fresh (k : Z) (t : pystr) (d : page_map) :
  Forall (fun kv => fst kv < k) d ->
  dict_set Z.eqb k t d = d ++ [(k, t)].
Proof.
  induction 1 as [|[k' v'] d Hk _ IH]; simpl; [reflexivity|].
  simpl in Hk. destruct (Z.eqb_spec k k'); [lia|]. now rewrite IH.
Qed.

Lemma number_pages_keys first texts :
  map fst (number_pages first texts)
  = map (fun i => first + Z.of_nat i) (seq 0 (List.length texts)).
Proof.
  revert first. induction texts as [|t texts IH]; intros first; simpl.
  - reflexivity.
  - f_equal; [lia|]. rewrite IH, <- seq_shift, map_map.
    apply map_ext. intros i. lia.
Qed.

Lemma number_pages_texts first texts :
  map snd (number_pages first texts) = texts.
Proof.
  revert first. induction texts as [|t texts IH]; intros; simpl; [|rewrite IH]; reflexivity.
Qed.

Lemma number_pages_length first texts :
  List.length (number_pages first texts) = List.length texts.
Proof.
  revert first. induction texts; intros; simpl; auto.
Qed.

Lemma number_pages_below first texts :
  Forall (fun kv => fst kv < first + len texts) (number_pages first texts).
Proof.
  unfold len. revert first. induction texts as [|t texts IH]; intros first; simpl.
  - constructor.
  - constructor; [simpl; lia|].
    eapply Forall_impl; [|apply (IH (first + 1))]. simpl. intros; lia.
Qed.

Lemma number_pages_app first a b :
  number_pages first (a ++ b)
  = number_pages first a ++ number_pages (first + len a) b.
Proof.
  unfold len. revert first. induction a as [|t a IH]; intros first; simpl.
  - f_equal. lia.
  - rewrite IH. do 3 f_equal. lia.
Qed.

Lemma for_each_cons {A S} (x : A) xs (body : A -> S -> M S) s w :
  for_each (x :: xs) body s w
  = match body x s w with
    | (Ok s', w') => for_each xs body s' w'
    | (Raise e, w') => (Raise e, w')
    end.
Proof. reflexivity. Qed.

Lemma page_body_at (doc : document) done (r : result pystr) rest acc w :
  doc_pages doc = map Ok done ++ r :: rest ->
  page_body doc (Z.of_nat (List.length done)) acc w
  = match r with
    | Ok t => (Ok (dict_set Z.eqb (Z.of_nat (List.length done) + 1) t acc), w)
    | Raise e => (Raise e, w)
    end.
Proof.
  intros Hp. unfold page_body, bind, fitz.get_text.
  rewrite Nat2Z.id, Hp, nth_error_app2 by (rewrite length_map; lia).
  rewrite length_map, Nat.sub_diag. simpl. now destruct r.
Qed.

Section PageLoop.
Variable doc : document.

Lemma page_step done t :
  dict_set Z.eqb (Z.of_nat (List.length done) + 1) t (number_pages 1 done)
  = number_pages 1 (done ++ [t]).
Proof.
  rewrite dict_set_fresh.
  - rewrite number_pages_app. cbn [number_pages]. unfold len.
    now rewrite (Z.add_comm 1).
  - eapply Forall_impl; [|apply (number_pages_below 1 done)].
    intros kv H. unfold len in H. cbv beta in H. lia.
Qed.

(** The loop from page index [length done] on, when the pages before
    it were read: all of [texts] readable. *)
Lemma page_loop_ok texts : forall done w,
  doc_pages doc = map Ok done ++ map Ok texts ->
  for_each (map Z.of_nat (seq (List.length done) (List.length texts)))
    (page_body doc) (number_pages 1 done) w
  = (Ok (number_pages 1 (done ++ texts)), w).
Proof.
  induction texts as [|t texts IH]; intros done w Hp.
  - simpl. now rewrite app_nil_r.
  - cbn [List.length seq map]. rewrite for_each_cons.
    rewrite (page_body_at _ _ (Ok t) (map Ok texts)) by exact Hp.
    rewrite page_step.
    specialize (IH (done ++ [t]) w).
    rewrite length_app, Nat.add_1_r, <- app_assoc in IH.
    apply IH. rewrite Hp, map_app, <- app_assoc. reflexivity.
Qed.

(** The loop stops at the first page that cannot be read. *)
Lemma page_loop_fails texts e rest : forall done w,
  doc_pages doc = map Ok done ++ map Ok texts ++ Raise e :: rest ->
  for_each
    (map Z.of_nat
       (seq (List.length done) (List.length (map Ok texts ++ Raise e :: rest))))
    (page_body doc) (number_pages 1 done) w
  = (Raise e, w).
Proof.
  induction texts as [|t texts IH]; intros done w Hp.
  - cbn [app List.length seq map]. rewrite for_each_cons.
    now rewrite (page_body_at _ _ (Raise e) rest) by exact Hp.
  - cbn [app List.length seq map] in *. rewrite for_each_cons.
    rewrite (page_body_at _ _ (Ok t) (map Ok texts ++ Raise e :: rest)) by exact Hp.
    rewrite page_step.
    specialize (IH (done ++ [t]) w).
    rewrite length_app, Nat.add_1_r in IH.
    apply IH. rewrite Hp, map_app, <- app_assoc. reflexivity.
Qed.
End PageLoop.

Lemma range_page_count (doc : document) :
  range (fitz.page_count doc)
  = map Z.of_nat (seq 0 (List.length (doc_pages doc))).
Proof. unfold range, fitz.page_count, len. now rewrite Nat2Z.id. Qed.

Lemma extract_unfold self w :
  _extract_text_from_pdf self w
  = match disk w (pdf_path self) with
    | Raise e => (Raise e, after_extract_error e w)
    | Ok doc =>
        let w1 := emit_event (EvOpen (doc_name doc)) w in
        match for_each (range (fitz.page_count doc)) (page_body doc) [] w1 with
        | (Ok extracted_text, w2) =>
            (Ok extracted_text, emit_event (EvClose (doc_name doc)) w2)
        | (Raise e, w2) => (Raise e, after_extract_error e w2)
        end
    end.
Proof.
  unfold _extract_text_from_pdf, try_except, bind at 1, fitz.open,
    after_extract_error.
  destruct (disk w (pdf_path self)) as [doc|e].
  - fold (page_body doc). unfold bind at 1.
    destruct (for_each _ _ _ _) as [[m|e] w2]; [reflexivity|].
    destruct (isinstance_Exception (exn_cls e)); reflexivity.
  - destruct (isinstance_Exception (exn_cls e)); reflexivity.
Qed.

(** All pages readable: the page map numbers the texts from 1, and
    the document was opened and closed. *)
Lemma extract_ok self w doc texts :
  disk w (pdf_path self) = Ok doc ->
  doc_pages doc = map Ok texts ->
  _extract_text_from_pdf self w
  = (Ok (number_pages 1 texts),
     emit_event (EvClose (doc_name doc))
       (emit_event (EvOpen (doc_name doc)) w)).
Proof.
  intros Hd Hp. rewrite extract_unfold, Hd. cbv zeta.
  rewrite range_page_count, Hp, length_map.
  now rewrite (page_loop_ok doc texts [] _ Hp).
Qed.

Lemma extract_open_fails self w e :
  disk w (pdf_path self) = Raise e ->
  _extract_text_from_pdf self w = (Raise e, after_extract_error e w).
Proof. intros Hd. now rewrite extract_unfold, Hd. Qed.

(** A page that cannot be read: the error goes up, after the document
    was opened, and nothing closes it. *)
Lemma extract_read_fails self w doc texts e rest :
  disk w (pdf_path self) = Ok doc ->
  doc_pages doc = map Ok texts ++ Raise e :: rest ->
  _extract_text_from_pdf self w
  = (Raise e, after_extract_error e (emit_event (EvOpen (doc_name doc)) w)).
Proof.
  intros Hd Hp. rewrite extract_unfold, Hd. cbv zeta.
  rewrite range_page_count, Hp.
  now rewrite (page_loop_fails doc texts e rest [] _ Hp).
Qed.

Lemma after_extract_error_handles e w :
  open_handles (trace (after_extract_error e w)) = open_handles (trace w).
Proof.
  unfold after_extract_error. destruct (isinstance_Exception _); [|reflexivity].
  cbn [emit_event trace]. rewrite open_handles_app. simpl. lia.
Qed.

Lemma after_extract_error_requests e w :
  requests (trace (after_extract_error e w)) = requests (trace w).
Proof.
  unfold after_extract_error. destruct (isinstance_Exception _); [|reflexivity].
  cbn [emit_event trace]. rewrite requests_app. simpl. apply app_nil_r.
Qed.

(** ** The batching loop *)

Lemma bind_ret_r {A} (m : M A) w : bind m ret w = m w.
Proof. unfold bind, ret. now destruct (m w) as [[a|e] w']. Qed.

Lemma bind_unfold {A B} (m : M A) (k : A -> M B) w :
  bind m k w
  = match m w with
    | (Ok a, w') => k a w'
    | (Raise e, w') => (Raise e, w')
    end.
Proof. reflexivity. Qed.

Section BatchLoop.
Variable f : list pystr -> list Z -> M (option pyval).
Variable N : Z.

(** The loop, started anywhere, makes the calls [batches_from] lists. *)
Lemma loop_runs_batches items : forall all texts nums w,
  bind (for_each items (loop_body f N) (mkLoop all texts nums))
    (remaining_pages f) w
  = run_batches f (batches_from N items texts nums) all w.
Proof.
  induction items as [|[page_num page_text] rest IH]; intros all texts nums w.
  - unfold bind, remaining_pages. cbn [for_each ret page_texts_batch
      page_numbers_batch all_products batches_from].
    destruct texts as [|t texts]; [reflexivity|].
    cbn [run_batches]. unfold bind.
    destruct (f (t :: texts) nums w) as [[products|e] w1]; [|reflexivity].
    now destruct (extend_products all products w1) as [[all'|e] w2].
  - cbn [batches_from]. rewrite bind_unfold, for_each_cons.
    unfold loop_body at 1.
    cbn [page_texts_batch page_numbers_batch all_products].
    destruct (len (texts ++ [page_text]) =? N).
    + cbn [run_batches]. rewrite !bind_unfold.
      destruct (f _ _ w) as [[products|e] w1]; [|reflexivity].
      rewrite !bind_unfold.
      destruct (extend_products all products w1) as [[all'|e] w2];
        [|reflexivity].
      unfold ret at 1. rewrite <- bind_unfold. apply IH.
    + unfold ret at 1. rewrite <- bind_unfold. apply IH.
Qed.

Lemma process_text_batches_runs items w :
  process_text_batches f N items w = run_batches f (batches N items) [] w.
Proof. apply (loop_runs_batches items [] [] [] w). Qed.

Lemma run_batches_app bs1 : forall bs2 all w,
  run_batches f (bs1 ++ bs2) all w
  = match run_batches f bs1 all w with
    | (Ok acc, w1) => run_batches f bs2 acc w1
    | (Raise e, w1) => (Raise e, w1)
    end.
Proof.
  induction bs1 as [|[texts nums] bs1 IH]; intros bs2 all w; [reflexivity|].
  cbn [app run_batches]. unfold bind.
  destruct (f texts nums w) as [[products|e] w1]; [|reflexivity].
  destruct (extend_products all products w1) as [[all'|e] w2];
    [apply IH|reflexivity].
Qed.

(** *** The batches themselves *)

Lemma batches_from_concat_nums items : forall texts nums,
  List.length texts = List.length nums ->
  List.concat (map snd (batches_from N items texts nums))
  = nums ++ map fst items.
Proof.
  induction items as [|[page_num page_text] rest IH]; intros texts nums Hl;
    cbn [batches_from].
  - destruct texts, nums; try discriminate; simpl; now rewrite ?app_nil_r.
  - destruct (_ =? N); cbn [map List.concat snd fst]; rewrite IH;
      cbn [app]; rewrite <- ?app_assoc; trivial.
    rewrite !length_app. simpl. lia.
Qed.

Lemma batches_from_concat_texts items : forall texts nums,
  List.concat (map fst (batches_from N items texts nums))
  = texts ++ map snd items.
Proof.
  induction items as [|[page_num page_text] rest IH]; intros texts nums;
    cbn [batches_from].
  - destruct texts; simpl; now rewrite ?app_nil_r.
  - destruct (_ =? N); cbn [map List.concat snd fst]; rewrite IH;
      cbn [app]; now rewrite <- ?app_assoc.
Qed.

Lemma batches_from_started items : forall t texts nums,
  batches_from N items (t :: texts) nums <> [].
Proof.
  induction items as [|[page_num page_text] rest IH]; intros t texts nums;
    cbn [batches_from]; [discriminate|].
  destruct (_ =? N); [discriminate|]. apply IH.
Qed.

(** No batch is empty, and its two sequences run in parallel. *)
Lemma batches_from_parallel items : forall texts nums,
  List.length texts = List.length nums ->
  Forall (fun b => List.length (fst b) = List.length (snd b)
                   /\ fst b <> [] /\ snd b <> [])
    (batches_from N items texts nums).
Proof.
  induction items as [|[page_num page_text] rest IH]; intros texts nums Hl;
    cbn [batches_from].
  - destruct texts as [|t texts]; constructor; [|constructor].
    destruct nums; [discriminate|]. cbn [fst snd]. repeat split; congruence.
  - assert (Hl' : List.length (texts ++ [page_text])
                  = List.length (nums ++ [page_num]))
      by (rewrite !length_app; simpl; lia).
    destruct (_ =? N).
    + constructor; [|now apply IH]. cbn [fst snd].
      repeat split; trivial; now destruct texts, nums.
    + now apply IH.
Qed.

Hypothesis N_pos : 0 < N.

Lemma batches_from_count items : forall texts nums,
  len texts < N ->
  len (batches_from N items texts nums)
  = (len texts + len items + N - 1) / N.
Proof.
  induction items as [|[page_num page_text] rest IH]; intros texts nums Hk;
    cbn [batches_from].
  - destruct texts as [|t texts].
    + unfold len. simpl. symmetry. apply Z.div_small. lia.
    + unfold len in *. cbn [List.length] in *.
      apply Z.div_unique with (r := Z.of_nat (List.length texts)); lia.
  - assert (Hl : len (texts ++ [page_text]) = len texts + 1)
      by (unfold len; rewrite length_app; simpl; lia).
    assert (Hi : len ((page_num, page_text) :: rest) = len rest + 1)
      by (unfold len; simpl; lia).
    rewrite Hi. destruct (Z.eqb_spec (len (texts ++ [page_text])) N) as [E|E].
    + replace (len ((texts ++ [page_text], nums ++ [page_num])
                      :: batches_from N rest [] []))
        with (len (batches_from N rest [] []) + 1)
        by (unfold len; simpl; lia).
      rewrite IH by (change (len (@nil pystr)) with 0; lia).
      replace (len texts + (len rest + 1) + N - 1)
        with (len (@nil pystr) + len rest + N - 1 + 1 * N)
        by (change (len (@nil pystr)) with 0; lia).
      now rewrite Z.div_add by lia.
    + rewrite IH by lia. f_equal. lia.
Qed.

Lemma batches_from_sizes items : forall texts nums i b,
  len texts < N ->
  nth_error (batches_from N items texts nums) i = Some b ->
  len (fst b)
  = if Z.of_nat i + 1 <? len (batches_from N items texts nums)
    then N else last_size N (len texts + len items).
Proof.
  induction items as [|[page_num page_text] rest IH];
    intros texts nums i b Hk Hb; cbn [batches_from] in *.
  - destruct texts as [|t texts]; [now destruct i|].
    destruct i as [|i]; [|now destruct i]. injection Hb as <-.
    cbn [fst]. unfold last_size, len in *. cbn [List.length] in *.
    rewrite Z.add_0_r, Z.mod_small by lia.
    destruct (Z.eqb_spec (Z.of_nat (S (List.length texts))) 0); [lia|].
    reflexivity.
  - assert (Hl : len (texts ++ [page_text]) = len texts + 1)
      by (unfold len; rewrite length_app; simpl; lia).
    assert (Hi : len ((page_num, page_text) :: rest) = len rest + 1)
      by (unfold len; simpl; lia).
    rewrite Hi.
    destruct (Z.eqb_spec (len (texts ++ [page_text])) N) as [E|E].
    + assert (Hm : last_size N (len texts + (len rest + 1))
                   = last_size N (len (@nil pystr) + len rest)).
      { unfold last_size.
        replace (len texts + (len rest + 1))
          with (len (@nil pystr) + len rest + 1 * N)
          by (change (len (@nil pystr)) with 0; lia).
        now rewrite Z.mod_add by lia. }
      rewrite Hm.
      replace (len ((texts ++ [page_text], nums ++ [page_num])
                      :: batches_from N rest [] []))
        with (len (batches_from N rest [] []) + 1)
        by (unfold len; simpl; lia).
      destruct i as [|i].
      * injection Hb as <-. cbn [fst].
        destruct (Z.ltb_spec (Z.of_nat 0 + 1)
                    (len (batches_from N rest [] []) + 1)) as [L|L];
          [exact E|].
        assert (Hr : rest = []).
        { destruct rest as [|[n t] rest]; [reflexivity|].
          exfalso. cbn [batches_from] in L.
          destruct (_ =? N) in L.
          - unfold len in L. simpl in L. lia.
          - pose proof (batches_from_started rest t [] ([] ++ [n])) as Hs.
            simpl app in *.
            destruct (batches_from N rest [t] [n]); [congruence|].
            unfold len in L. simpl in L. lia. }
        subst rest. unfold last_size.
        change (len (@nil pystr) + len (@nil (Z * pystr))) with 0.
        rewrite Z.mod_0_l by lia. exact E.
      * cbn [nth_error] in Hb.
        rewrite (IH [] [] i b) by (trivial; change (len (@nil pystr)) with 0; lia).
        replace (Z.of_nat (S i) + 1) with (Z.of_nat i + 1 + 1) by lia.
        destruct (Z.ltb_spec (Z.of_nat i + 1) (len (batches_from N rest [] [])));
          destruct (Z.ltb_spec (Z.of_nat i + 1 + 1)
                      (len (batches_from N rest [] []) + 1));
          trivial; lia.
    + rewrite (IH (texts ++ [page_text]) (nums ++ [page_num]) i b)
        by (trivial; lia).
      now replace (len (texts ++ [page_text]) + len rest)
        with (len texts + (len rest + 1)) by lia.
Qed.
End BatchLoop.

(** ** The regular expression *)

Section Matcher.
Import re.

Lemma star_loop_none a k s :
  star_loop a k s = None ->
  forall run s2, s = run ++ s2 ->
    Forall (fun c => atom_matches a c = true) run -> k s2 = None.
Proof.
  induction s as [|c s IH]; cbn [star_loop]; intros Hn run s2 Hs Hr.
  - destruct run; [|discriminate]. simpl in Hs. now subst s2.
  - destruct run as [|c' run]; simpl in Hs.
    + subst s2. destruct (atom_matches a c); [|exact Hn].
      now destruct (star_loop a k s).
    + injection Hs as <- ->. inversion Hr as [|? ? Hc Hr']; subst.
      rewrite Hc in Hn.
      destruct (star_loop a k (run ++ s2)) eqn:E; [discriminate|].
      now apply (IH eq_refl run s2).
Qed.

(** The star keeps the longest run after which the rest matches. *)
Lemma star_loop_some a k s : forall m,
  star_loop a k s = Some m ->
  exists run s2 m2,
    s = run ++ s2 /\ m = run ++ m2 /\ k s2 = Some m2
    /\ Forall (fun c => atom_matches a c = true) run
    /\ forall run' s2', s = run' ++ s2' ->
         Forall (fun c => atom_matches a c = true) run' ->
         (List.length run < List.length run')%nat -> k s2' = None.
Proof.
  induction s as [|c s IH]; cbn [star_loop]; intros m Hm.
  - exists [], [], m. repeat split; trivial.
    intros run' s2' Hs _ Hl. destruct run'; [simpl in Hl; lia|discriminate].
  - destruct (atom_matches a c) eqn:Hc.
    + destruct (star_loop a k s) as [m0|] eqn:E.
      * injection Hm as <-.
        destruct (IH m0 eq_refl) as (run & s2 & m2 & -> & -> & Hk & Hr & Hmax).
        exists (c :: run), s2, m2. repeat split; trivial.
        -- now constructor.
        -- intros run' s2' Hs Hr' Hl. destruct run' as [|c' run'];
             [simpl in Hl; lia|].
           simpl in Hs. injection Hs as <- Hs.
           inversion Hr'; subst. apply (Hmax run' s2'); trivial.
           simpl in Hl. lia.
      * exists [], (c :: s), m. repeat split; trivial.
        intros run' s2' Hs Hr' Hl. destruct run' as [|c' run'];
          [simpl in Hl; lia|].
        simpl in Hs. injection Hs as <- ->. inversion Hr'; subst.
        now apply (star_loop_none a k _ E run' s2').
    + exists [], (c :: s), m. repeat split; trivial.
      intros run' s2' Hs Hr' Hl. destruct run' as [|c' run'];
        [simpl in Hl; lia|].
      simpl in Hs. injection Hs as <- ->. inversion Hr'; subst. congruence.
Qed.

(** What the matcher returns is in the language and heads the input. *)
Lemma match_here_sound p : forall s m,
  match_here p s = Some m -> matches p m /\ exists post, s = m ++ post.
Proof.
  induction p as [|[a|a] p IH]; cbn [match_here]; intros s m Hm.
  - injection Hm as <-. split; [constructor|now exists s].
  - destruct s as [|c s]; [discriminate|].
    destruct (atom_matches a c) eqn:Hc; [|discriminate].
    destruct (match_here p s) as [m0|] eqn:E; [|discriminate].
    injection Hm as <-. destruct (IH s m0 E) as [Hl [post ->]].
    split; [now constructor|now exists post].
  - destruct (star_loop_some a _ s m Hm)
      as (run & s2 & m2 & -> & -> & Hk & Hr & _).
    destruct (IH s2 m2 Hk) as [Hl [post ->]].
    split; [now constructor|]. exists post. now rewrite app_assoc.
Qed.

(** Where the language has a word heading the input, the matcher
    finds a match. *)
Lemma match_here_complete p m :
  matches p m -> forall post, match_here p (m ++ post) <> None.
Proof.
  induction 1 as [|a c p m Hc _ IH|a run p m Hr _ IH]; intros post;
    cbn [match_here app].
  - discriminate.
  - rewrite Hc. specialize (IH post).
    now destruct (match_here p (m ++ post)).
  - intros Hn. apply (IH post).
    apply (star_loop_none a _ _ Hn run (m ++ post)); trivial.
    now rewrite app_assoc.
Qed.

(** The leftmost position that has a match. *)
Lemma search_some p s : forall m,
  search p s = Some m ->
  exists pre post,
    s = pre ++ m ++ post /\ match_here p (m ++ post) = Some m
    /\ forall pre' rest', s = pre' ++ rest' ->
         (List.length pre' < List.length pre)%nat ->
         match_here p rest' = None.
Proof.
  induction s as [|c s IH]; intros m Hs; cbn [search] in Hs.
  - destruct (match_here p []) as [m0|] eqn:E; [|discriminate].
    injection Hs as ->. destruct (match_here_sound p _ _ E) as [_ [post Hp]].
    exists [], post. rewrite <- Hp. repeat split; trivial.
    intros pre' rest' _ Hl. simpl in Hl. lia.
  - destruct (match_here p (c :: s)) as [m0|] eqn:E.
    + injection Hs as ->. destruct (match_here_sound p _ _ E) as [_ [post Hp]].
      exists [], post. rewrite <- Hp. repeat split; trivial.
      intros pre' rest' _ Hl. simpl in Hl. lia.
    + destruct (IH m Hs) as (pre & post & -> & Hm & Hmin).
      exists (c :: pre), post. repeat split; trivial.
      intros pre' rest' Hd Hl. destruct pre' as [|c' pre'].
      * simpl in Hd. now subst rest'.
      * simpl in Hd. injection Hd as <- Hd. apply (Hmin pre' rest' Hd).
        simpl in Hl. lia.
Qed.

Lemma search_none p s :
  search p s = None ->
  forall pre rest, s = pre ++ rest -> match_here p rest = None.
Proof.
  induction s as [|c s IH]; intros Hs pre rest Hd; cbn [search] in Hs.
  - destruct pre; [|discriminate]. simpl in Hd. subst rest.
    now destruct (match_here p []).
  - destruct (match_here p (c :: s)) eqn:E; [discriminate|].
    destruct pre as [|c' pre]; simpl in Hd.
    + now subst rest.
    + injection Hd as <- Hd. now apply (IH Hs pre rest).
Qed.
End Matcher.

Lemma app_inj_length {A} (l1 : list A) : forall l2 r1 r2,
  l1 ++ r1 = l2 ++ r2 -> List.length l1 = List.length l2 ->
  l1 = l2 /\ r1 = r2.
Proof.
  induction l1 as [|a l1 IH]; intros [|b l2] r1 r2 He Hl; try discriminate.
  - now split.
  - simpl in He. injection He as -> He. injection Hl as Hl.
    destruct (IH l2 r1 r2 He Hl) as [-> ->]. now split.
Qed.

Section ArrayPattern.
Import re.

Lemma match_here_one a p c s :
  match_here (One a :: p) (c :: s)
  = if atom_matches a c then option_map (cons c) (match_here p s) else None.
Proof. reflexivity. Qed.

Lemma match_here_one_nil a p : match_here (One a :: p) [] = None.
Proof. reflexivity. Qed.

Lemma match_here_star a p s :
  match_here (Star a :: p) s = star_loop a (match_here p) s.
Proof. reflexivity. Qed.

(** A run of whitespace is no longer than what precedes a character
    that is not whitespace. *)
Lemma run_bound ws : forall x d c y,
  ws ++ x = d ++ c :: y -> spaces ws -> isspace c = false ->
  (List.length ws <= List.length d)%nat.
Proof.
  induction ws as [|a ws IH]; intros x d c y He Hs Hc; simpl; [lia|].
  inversion Hs as [|? ? Ha Hs']; subst.
  destruct d as [|a' d]; simpl in He; injection He as -> He.
  - congruence.
  - simpl. apply le_n_S. now apply (IH x d c y).
Qed.

Lemma run_unique ws1 : forall ws2 c r1 r2,
  ws1 ++ c :: r1 = ws2 ++ c :: r2 -> spaces ws1 -> spaces ws2 ->
  isspace c = false -> ws1 = ws2 /\ r1 = r2.
Proof.
  induction ws1 as [|a ws1 IH]; intros ws2 c r1 r2 He H1 H2 Hc.
  - destruct ws2 as [|b ws2]; simpl in He.
    + injection He as ->. now split.
    + injection He as -> _. inversion H2; subst. congruence.
  - inversion H1; subst. destruct ws2 as [|b ws2]; simpl in He.
    + injection He as -> _. congruence.
    + injection He as -> He. inversion H2; subst.
      destruct (IH ws2 c r1 r2 He) as [-> ->]; trivial. now split.
Qed.

Lemma lit_matches c c' : atom_matches (Lit c') c = true -> c = c'.
Proof. apply N.eqb_eq. Qed.

Lemma matches_closing m :
  matches closing m <-> exists ws, m = 125%N :: ws ++ [93%N] /\ spaces ws.
Proof.
  split.
  - unfold spaces. intros H. inversion H as [|? c ? m1 Hc H1|]; subst.
    apply lit_matches in Hc. subst c.
    inversion H1 as [| |? ws ? m2 Hw H2]; subst.
    inversion H2 as [|? c ? m3 Hc H3|]; subst.
    apply lit_matches in Hc. subst c. inversion H3; subst.
    now exists ws.
  - intros (ws & -> & Hw). constructor; [reflexivity|].
    constructor; [exact Hw|]. constructor; [reflexivity|constructor].
Qed.

Lemma matches_array m : matches json_array_re m <-> array_shape m.
Proof.
  unfold array_shape. split.
  - intros H. inversion H as [|? c ? m1 Hc H1|]; subst.
    apply lit_matches in Hc. subst c.
    inversion H1 as [| |? ws1 ? m2 Hw1 H2]; subst.
    inversion H2 as [|? c ? m3 Hc H3|]; subst.
    apply lit_matches in Hc. subst c.
    inversion H3 as [| |? body ? m4 _ H4]; subst.
    apply matches_closing in H4. destruct H4 as (ws2 & -> & Hw2).
    now exists ws1, body, ws2.
  - intros (ws1 & body & ws2 & -> & Hw1 & Hw2).
    constructor; [reflexivity|]. constructor; [exact Hw1|].
    constructor; [reflexivity|]. constructor.
    + apply Forall_forall. reflexivity.
    + apply matches_closing. now exists ws2.
Qed.

(** At a position where the pattern matches, the engine returns the
    longest text of the shape. *)
Lemma match_here_longest s m :
  match_here json_array_re s = Some m ->
  forall m' post', s = m' ++ post' -> array_shape m' ->
    (List.length m' <= List.length m)%nat.
Proof.
  intros Hm m' post' Hs (ws1' & body' & ws2' & -> & Hw1' & Hw2').
  unfold json_array_re in Hm. subst s.
  cbn [app] in Hm. rewrite match_here_one, match_here_star in Hm.
  change (atom_matches (Lit 91) 91) with true in Hm. cbv iota in Hm.
  fold closing in Hm.
  destruct (star_loop Whitespace _ _) as [m1|] eqn:E1; [|discriminate].
  injection Hm as <-.
  apply star_loop_some in E1.
  destruct E1 as (run & s2 & m2 & Hs1 & -> & Hk1 & Hrun & _).
  destruct s2 as [|c2 s3]; [discriminate|].
  rewrite match_here_one, match_here_star in Hk1.
  destruct (atom_matches (Lit 123) c2) eqn:Hc2; [|discriminate].
  apply lit_matches in Hc2. subst c2.
  destruct (star_loop AnyChar _ s3) as [m3|] eqn:E3; [|discriminate].
  injection Hk1 as <-.
  norm_app_in Hs1.
  apply run_unique in Hs1; trivial. destruct Hs1 as [<- <-].
  apply star_loop_some in E3.
  destruct E3 as (body & s4 & m4 & Hs3 & -> & Hk2 & _ & Hmax).
  apply match_here_sound in Hk2. destruct Hk2 as [Hcl [post ->]].
  apply matches_closing in Hcl. destruct Hcl as (ws2 & -> & Hw2).
  norm_app_in Hs3.
  repeat (rewrite ?length_app; cbn [List.length]).
  symmetry in Hs3. apply app_eq_app in Hs3.
  destruct Hs3 as [d [[-> Hd]|[-> Hd]]].
  - (* the engine's body is the longer one *)
    destruct d as [|x d]; norm_app_in Hd.
    + injection Hd as Hd. apply run_unique in Hd; trivial.
      destruct Hd as [-> _]. rewrite length_app. simpl. lia.
    + injection Hd as <- Hd. apply run_bound in Hd; trivial.
      rewrite length_app. simpl. lia.
  - (* a longer body would have been taken *)
    destruct d as [|x d]; norm_app_in Hd.
    + injection Hd as Hd. apply run_unique in Hd; trivial.
      destruct Hd as [-> _]. rewrite length_app. simpl. lia.
    + exfalso.
      assert (Hc : matches closing (125%N :: ws2' ++ [93%N]))
        by (apply matches_closing; now exists ws2').
      apply (match_here_complete _ _ Hc post').
      apply (Hmax (body ++ x :: d)).
      * cbn [app]. now rewrite <- (app_assoc ws2').
      * apply Forall_forall. reflexivity.
      * rewrite length_app. simpl. lia.
Qed.

(** [re.search] with the array pattern: the leftmost occurrence of
    the shape, and the longest one there. *)
Lemma search_array_some s m :
  search json_array_re s = Some m ->
  exists pre,
    occurs_at s pre m /\ array_shape m
    /\ forall pre' m', occurs_at s pre' m' -> array_shape m' ->
         (List.length pre <= List.length pre')%nat
         /\ (List.length pre' = List.length pre ->
             (List.length m' <= List.length m)%nat).
Proof.
  intros Hs. apply search_some in Hs.
  destruct Hs as (pre & post & -> & Hm & Hmin).
  exists pre. split; [now exists post|].
  split; [apply matches_array; now apply match_here_sound in Hm|].
  intros pre' m' [post' Ho] Hsh.
  assert (Hle : (List.length pre <= List.length pre')%nat).
  { destruct (Nat.le_gt_cases (List.length pre) (List.length pre'))
      as [L|L]; [exact L|].
    exfalso. apply matches_array in Hsh.
    apply (match_here_complete _ _ Hsh post').
    now apply (Hmin pre'). }
  split; [exact Hle|].
  intros He. symmetry in He. apply app_inj_length in Ho; trivial.
  destruct Ho as [_ Ho]. now apply (match_here_longest _ _ Hm m' post').
Qed.

Lemma search_array_none s :
  search json_array_re s = None ->
  forall pre m, occurs_at s pre m -> ~ array_shape m.
Proof.
  intros Hs pre m [post Ho] Hsh. apply matches_array in Hsh.
  apply (match_here_complete _ _ Hsh post).
  now apply (search_none _ _ Hs pre).
Qed.
End ArrayPattern.

(** ** The decoder: it returns, and what it raises *)

Section Decoder.
Import json.

Lemma skip_ws_length s : (List.length (skip_ws s) <= List.length s)%nat.
Proof.
  induction s as [|c s IH]; simpl; [lia|].
  destruct (is_ws c); simpl; lia.
Qed.

Lemma skip_ws_cons s c rest :
  skip_ws s = c :: rest -> (List.length rest < List.length s)%nat.
Proof.
  intros H. pose proof (skip_ws_length s) as L. rewrite H in L.
  simpl in L. lia.
Qed.

Lemma push_some c r str rest :
  push c r = Some (str, rest) -> exists str', r = Some (str', rest).
Proof.
  destruct r as [[str' rest']|]; simpl; [|discriminate].
  intros H. injection H as _ <-. now exists str'.
Qed.

Lemma scanstring_shrinks n : forall s str rest,
  (List.length s <= n)%nat ->
  scanstring s = Some (str, rest) ->
  (List.length rest < List.length s)%nat.
Proof.
  induction n as [|n IH]; intros s str rest Hn H.
  - destruct s; [discriminate|simpl in Hn; lia].
  - destruct s as [|c s]; [discriminate|]. cbn [scanstring] in H.
    simpl in Hn.
    break_match_in H;
      try (injection H as <- <-; simpl; lia);
      apply push_some in H; destruct H as [str' H];
      apply IH in H; simpl in *; lia.
Qed.

Lemma span_digits_length s :
  (List.length (snd (span_digits s)) <= List.length s)%nat.
Proof.
  induction s as [|c s IH]; simpl; [lia|].
  destruct (is_digit c); simpl; [|lia].
  destruct (span_digits s); simpl in *. lia.
Qed.

Lemma startswith_length pre : forall s,
  startswith pre s = true -> (List.length pre <= List.length s)%nat.
Proof.
  induction pre as [|x pre IH]; intros [|y s]; simpl; try lia; try discriminate.
  intros H. apply andb_prop in H. destruct H as [_ H]. apply IH in H. lia.
Qed.

Lemma span_digits_snd s ds rest :
  span_digits s = (ds, rest) -> (List.length rest <= List.length s)%nat.
Proof.
  intros H. pose proof (span_digits_length s) as L. now rewrite H in L.
Qed.

Lemma int_part_shrinks s ds rest :
  int_part s = Some (ds, rest) -> (List.length rest < List.length s)%nat.
Proof.
  unfold int_part. intros H. break_match_in H; injection H as <- <-.
  - simpl. lia.
  - match goal with E : span_digits _ = _ |- _ =>
      apply span_digits_snd in E; simpl; lia end.
Qed.

Lemma frac_part_shrinks s ds rest :
  frac_part s = Some (ds, rest) -> (List.length rest < List.length s)%nat.
Proof.
  unfold frac_part. intros H. break_match_in H; injection H as <- <-.
  match goal with E : span_digits _ = _ |- _ =>
    apply span_digits_snd in E; simpl; lia end.
Qed.

Lemma exp_part_shrinks s e rest :
  exp_part s = Some (e, rest) -> (List.length rest < List.length s)%nat.
Proof.
  unfold exp_part. intros H.
  destruct s as [|c s']; [discriminate|].
  destruct (_ || _); [|discriminate].
  destruct (match s' with [] => _ | _ :: _ => _ end) as [neg s''] eqn:E.
  assert (L : (List.length s'' <= List.length s')%nat).
  { destruct s' as [|sg t]; [injection E as <- <-; lia|].
    destruct (sg =? 45)%N; [injection E as <- <-; simpl; lia|].
    destruct (sg =? 43)%N; injection E as <- <-; simpl; lia. }
  destruct (span_digits s'') as [ds r] eqn:E2.
  apply span_digits_snd in E2.
  destruct ds; [discriminate|]. injection H as <- <-. simpl. lia.
Qed.

Lemma progresses_invalid room msg s : progresses room (Invalid msg) s.
Proof. split; [discriminate|]. split; intros; discriminate. Qed.

Lemma progresses_parsed room v rest s :
  (List.length rest < List.length s)%nat -> progresses room (Parsed v rest) s.
Proof.
  intros L. split; [discriminate|]. split.
  - intros v' rest' H. now injection H as <- <-.
  - intros; discriminate.
Qed.

Lemma progresses_digits room n s :
  (int_max_str_digits < List.length s)%nat ->
  progresses room (Raises (digits_error n)) s.
Proof.
  intros L. split; [discriminate|]. split; [intros; discriminate|].
  intros e [= <-]. now left.
Qed.

Lemma progresses_recursion what s :
  s <> [] -> progresses 0 (Raises (recursion_error what)) s.
Proof.
  intros L. split; [discriminate|]. split; [intros; discriminate|].
  intros e [= <-]. right. split; [reflexivity|].
  destruct s; [congruence|simpl; lia].
Qed.

Lemma progresses_le room r s room' s' :
  progresses room r s ->
  (List.length s <= List.length s')%nat ->
  (room' + List.length s <= room + List.length s')%nat ->
  progresses room' r s'.
Proof.
  intros (H1 & H2 & H3) L R. split; [exact H1|]. split.
  - intros v rest H. specialize (H2 v rest H). lia.
  - intros e H. destruct (H3 e H) as [[C D]|[C D]]; [left|right];
      (split; [exact C|lia]).
Qed.

Lemma span_digits_count s ds rest :
  span_digits s = (ds, rest) ->
  (List.length ds + List.length rest = List.length s)%nat.
Proof.
  revert ds rest. induction s as [|c s IH]; intros ds rest H; simpl in H.
  - now injection H as <- <-.
  - destruct (is_digit c).
    + destruct (span_digits s) as [ds' rest'].
      injection H as <- <-. specialize (IH _ _ eq_refl). simpl. lia.
    + injection H as <- <-. simpl. lia.
Qed.

Lemma int_part_count s ds rest :
  int_part s = Some (ds, rest) ->
  (List.length ds + List.length rest = List.length s)%nat.
Proof.
  unfold int_part. intros H. break_match_in H; injection H as <- <-.
  - reflexivity.
  - match goal with E : span_digits _ = _ |- _ =>
      apply span_digits_count in E; simpl; lia end.
Qed.

Lemma match_number_progresses room s : progresses room (match_number s) s.
Proof.
  unfold match_number.
  destruct (match s with
            | [] => (false, s)
            | c :: s' => if (c =? 45)%N then (true, s') else (false, s)
            end) as [neg s1] eqn:E1.
  assert (L1 : (List.length s1 <= List.length s)%nat).
  { destruct s as [|c s']; [injection E1 as <- <-; lia|].
    destruct (c =? 45)%N; injection E1 as <- <-; simpl; lia. }
  destruct (int_part s1) as [[ids s2]|] eqn:E2;
    [|apply progresses_invalid].
  pose proof (int_part_count _ _ _ E2) as C2.
  apply int_part_shrinks in E2.
  destruct (frac_part s2) as [[fds s3]|] eqn:E3.
  - apply frac_part_shrinks in E3.
    destruct (exp_part s3) as [[e s4]|] eqn:E4.
    + apply exp_part_shrinks in E4. apply progresses_parsed. lia.
    + apply progresses_parsed. lia.
  - destruct (exp_part s2) as [[e s4]|] eqn:E4.
    + apply exp_part_shrinks in E4. apply progresses_parsed. lia.
    + destruct (int_max_str_digits <? List.length ids)%nat eqn:E5.
      * apply Nat.ltb_lt in E5. apply progresses_digits. lia.
      * apply progresses_parsed. lia.
Qed.

Section Loops.
Variable scan : pystr -> parse pyval.
Variable room : nat.
Hypothesis scan_progresses : forall s, progresses room (scan s) s.

Lemma array_loop_progresses fuel : forall s values,
  (List.length s < fuel)%nat ->
  progresses room (array_loop scan fuel s values) s.
Proof.
  induction fuel as [|fuel IH]; intros s values Hf; [lia|].
  cbn [array_loop]. destruct (scan_progresses s) as (Hn & Hs & He).
  destruct (scan s) as [v rest|msg|e|];
    [|apply progresses_invalid| |congruence].
  2:{ split; [discriminate|]. split; [intros; discriminate|].
      intros e' [= <-]. now apply He. }
  specialize (Hs v rest eq_refl).
  destruct (skip_ws rest) as [|c rest'] eqn:E;
    [apply progresses_invalid|].
  apply skip_ws_cons in E.
  destruct (c =? 93)%N; [apply progresses_parsed; lia|].
  destruct (c =? 44)%N; [|apply progresses_invalid].
  pose proof (skip_ws_length rest') as L.
  eapply progresses_le; [apply IH| |]; lia.
Qed.

Lemma object_loop_progresses fuel : forall s pairs,
  (List.length s < fuel)%nat ->
  progresses room (object_loop scan fuel s pairs) s.
Proof.
  induction fuel as [|fuel IH]; intros s pairs Hf; [lia|].
  cbn [object_loop].
  destruct s as [|q s1]; [apply progresses_invalid|].
  destruct (q =? 34)%N; [|apply progresses_invalid].
  destruct (scanstring s1) as [[key s2]|] eqn:E1;
    [|apply progresses_invalid].
  apply (scanstring_shrinks _ _ _ _ (le_n _)) in E1.
  destruct (skip_ws s2) as [|c s3] eqn:E2; [apply progresses_invalid|].
  apply skip_ws_cons in E2.
  destruct (c =? 58)%N; [|apply progresses_invalid].
  pose proof (skip_ws_length s3) as L3. simpl in Hf.
  destruct (scan_progresses (skip_ws s3)) as (Hn & Hs & He).
  destruct (scan (skip_ws s3)) as [v rest|msg|e|];
    [|apply progresses_invalid| |congruence].
  2:{ split; [discriminate|]. split; [intros; discriminate|].
      intros e' [= <-].
      destruct (He e eq_refl) as [[C D]|[C D]]; [left|right];
        (split; [exact C|simpl; lia]). }
  specialize (Hs v rest eq_refl).
  destruct (skip_ws rest) as [|c' rest'] eqn:E4;
    [apply progresses_invalid|].
  apply skip_ws_cons in E4.
  destruct (c' =? 125)%N; [apply progresses_parsed; simpl; lia|].
  destruct (c' =? 44)%N; [|apply progresses_invalid].
  pose proof (skip_ws_length rest') as L.
  eapply progresses_le; [apply IH| |]; simpl; lia.
Qed.
End Loops.

Lemma skipn_shrinks (pre s : pystr) :
  startswith pre s = true -> pre <> [] ->
  (List.length (skipn (List.length pre) s) < List.length s)%nat.
Proof.
  intros H Hp. apply startswith_length in H. rewrite length_skipn.
  destruct pre; [congruence|]. simpl in *. lia.
Qed.

(** The scanner returns for every room and every input; the fuel of
    its loops is never the limit; what it raises tells which limit
    the input is over. *)
Lemma scan_once_progresses room : forall s,
  progresses room (scan_once room s) s.
Proof.
  induction room as [|room IH]; intros s.
  - destruct s as [|c s']; [apply progresses_invalid|]. cbn [scan_once].
    destruct (c =? 34)%N.
    { destruct (scanstring s') as [[str rest]|] eqn:E;
        [|apply progresses_invalid].
      apply (scanstring_shrinks _ _ _ _ (le_n _)) in E.
      apply progresses_parsed. simpl. lia. }
    destruct (c =? 123)%N; [now apply progresses_recursion|].
    destruct (c =? 91)%N; [now apply progresses_recursion|].
    repeat match goal with
           | |- progresses _ (if startswith ?pre ?s then _ else _) _ =>
               destruct (startswith pre s) eqn:?;
               [apply progresses_parsed;
                now apply (skipn_shrinks pre s)|]
           end.
    apply match_number_progresses.
  - destruct s as [|c s']; [apply progresses_invalid|]. cbn [scan_once].
    destruct (c =? 34)%N.
    { destruct (scanstring s') as [[str rest]|] eqn:E;
        [|apply progresses_invalid].
      apply (scanstring_shrinks _ _ _ _ (le_n _)) in E.
      apply progresses_parsed. simpl. lia. }
    destruct (c =? 123)%N.
    { destruct (skip_ws s') as [|c' rest] eqn:E; [apply progresses_invalid|].
      pose proof (skip_ws_length s') as L.
      destruct (c' =? 125)%N.
      - apply skip_ws_cons in E. apply progresses_parsed. simpl. lia.
      - rewrite <- E. eapply progresses_le.
        + apply (object_loop_progresses _ room IH). simpl. lia.
        + simpl. lia.
        + simpl. lia. }
    destruct (c =? 91)%N.
    { destruct (skip_ws s') as [|c' rest] eqn:E; [apply progresses_invalid|].
      pose proof (skip_ws_length s') as L.
      destruct (c' =? 93)%N.
      - apply skip_ws_cons in E. apply progresses_parsed. simpl. lia.
      - rewrite <- E. eapply progresses_le.
        + apply (array_loop_progresses _ room IH). simpl. lia.
        + simpl. lia.
        + simpl. lia. }
    repeat match goal with
           | |- progresses _ (if startswith ?pre ?s then _ else _) _ =>
               destruct (startswith pre s) eqn:?;
               [apply progresses_parsed;
                now apply (skipn_shrinks pre s)|]
           end.
    apply match_number_progresses.
Qed.

(** [JSONDecoder.decode] returns a value or raises one of three
    errors: [JSONDecodeError]; [ValueError], on a text of more
    characters than an [int] may have digits; [RecursionError], on a
    text of more characters than there is room for calls. *)
Lemma decode_raises room s e :
  decode room s = Raise e ->
  exn_cls e = JSONDecodeError
  \/ (exn_cls e = ValueError /\ (int_max_str_digits < List.length s)%nat)
  \/ (exn_cls e = RecursionError /\ (room < List.length s)%nat).
Proof.
  unfold decode.
  pose proof (skip_ws_length s) as L.
  destruct (scan_once_progresses room (skip_ws s)) as (Hn & _ & He).
  destruct (scan_once _ _) as [v rest|msg|e'|]; [| | |congruence].
  - destruct (skip_ws rest); [discriminate|]. intros [= <-]. now left.
  - intros [= <-]. now left.
  - intros [= <-]. right.
    destruct (He e' eq_refl) as [[C D]|[C D]]; [left|right];
      (split; [exact C|lia]).
Qed.

(** The same for [json.loads], which leaves the world as it is. *)
Lemma loads_unfold s w :
  loads s w
  = (if startswith [65279%N] s
     then Raise (decode_error "Unexpected UTF-8 BOM (decode using utf-8-sig)")
     else decode (stack_room w) s, w).
Proof. unfold loads. now destruct (startswith _ _). Qed.

Lemma loads_world s w : snd (loads s w) = w.
Proof. rewrite loads_unfold. reflexivity. Qed.

(** What [json.loads] returns does not depend on the history. *)
Lemma loads_emit s ev w : fst (loads s (emit_event ev w)) = fst (loads s w).
Proof. now rewrite !loads_unfold. Qed.

(** A value that is neither an object nor an array takes no room. *)
Lemma scan_once_scalar room c s :
  (c =? 123)%N = false -> (c =? 91)%N = false ->
  scan_once room (c :: s) = scan_once 0 (c :: s).
Proof.
  intros H1 H2. destruct room as [|room]; [reflexivity|].
  cbn [scan_once]. now rewrite H1, H2.
Qed.

Lemma loads_raises s w e :
  fst (loads s w) = Raise e ->
  exn_cls e = JSONDecodeError
  \/ (exn_cls e = ValueError /\ (int_max_str_digits < List.length s)%nat)
  \/ (exn_cls e = RecursionError /\ (stack_room w < List.length s)%nat).
Proof.
  rewrite loads_unfold. cbn [fst].
  destruct (startswith _ _); [intros [= <-]; now left|].
  apply decode_raises.
Qed.
End Decoder.

(** ** Dictionaries *)

Lemma pystr_eqb_eq a : forall b, pystr_eqb a b = true <-> a = b.
Proof.
  induction a as [|x a IH]; intros [|y b]; simpl; split; try easy.
  - intros H. apply andb_prop in H. destruct H as [Hx Hab].
    apply N.eqb_eq in Hx. apply IH in Hab. congruence.
  - intros [= -> ->]. rewrite N.eqb_refl. now apply IH.
Qed.

Lemma pystr_eqb_refl a : pystr_eqb a a = true.
Proof. now apply pystr_eqb_eq. Qed.

Lemma pystr_eqb_neq a b : a <> b -> pystr_eqb a b = false.
Proof.
  intros H. destruct (pystr_eqb a b) eqn:E; [|reflexivity].
  now apply pystr_eqb_eq in E.
Qed.

Section DictFacts.
Context {V : Type}.
Implicit Types (d : list (pystr * V)) (k : pystr) (v : V).

Lemma dict_get_set_same k v d :
  dict_get pystr_eqb k (dict_set pystr_eqb k v d) = Some v.
Proof.
  induction d as [|[k' v'] d IH]; simpl.
  - now rewrite pystr_eqb_refl.
  - destruct (pystr_eqb k k') eqn:E; simpl; rewrite E; [reflexivity|exact IH].
Qed.

Lemma dict_get_set_other k k' v d :
  k' <> k ->
  dict_get pystr_eqb k' (dict_set pystr_eqb k v d) = dict_get pystr_eqb k' d.
Proof.
  intros Hk. induction d as [|[k0 v0] d IH]; simpl.
  - now rewrite pystr_eqb_neq.
  - destruct (pystr_eqb k k0) eqn:E; simpl.
    + apply pystr_eqb_eq in E. subst k0.
      now rewrite pystr_eqb_neq.
    + now rewrite IH.
Qed.

(** Assigning to a key that is there moves no key. *)
Lemma dict_set_keys_present k v d :
  dict_has pystr_eqb k d = true ->
  map fst (dict_set pystr_eqb k v d) = map fst d.
Proof.
  unfold dict_has. induction d as [|[k0 v0] d IH]; simpl; [discriminate|].
  destruct (pystr_eqb k k0); simpl; [reflexivity|].
  intros H. now rewrite IH.
Qed.

(** Assigning to a key that is not there puts it last. *)
Lemma dict_set_absent k v d :
  dict_has pystr_eqb k d = false ->
  dict_set pystr_eqb k v d = d ++ [(k, v)].
Proof.
  unfold dict_has. induction d as [|[k0 v0] d IH]; simpl; [reflexivity|].
  destruct (pystr_eqb k k0); [discriminate|].
  intros H. now rewrite IH.
Qed.
End DictFacts.

(** ** Post-processing of one record *)

Section Record.
Variable self : PDFProcessor.

(** The record has the key and an object under it. *)
Lemma update_product_present nums d ref w :
  dict_get pystr_eqb page_reference d = Some (PyDict ref) ->
  update_product self nums (PyDict d) w
  = (Ok (PyDict
           (dict_set pystr_eqb page_reference
              (PyDict (dict_set pystr_eqb file_path
                         (PyStr (pdf_path self)) ref)) d)), w).
Proof.
  intros H. unfold update_product, bind, lift, py_contains, dict_has.
  fold page_reference. rewrite H. cbn [negb py_getitem].
  now rewrite H.
Qed.

(** The record has no such key. *)
Lemma update_product_absent first nums d w :
  dict_get pystr_eqb page_reference d = None ->
  update_product self (first :: nums) (PyDict d) w
  = (Ok (PyDict
           (dict_set pystr_eqb page_reference
              (PyDict [(file_path, PyStr (pdf_path self));
                       (page_numbers, PyList [PyInt first])]) d)), w).
Proof.
  intros H. unfold update_product, bind, lift, py_contains, dict_has.
  fold page_reference. now rewrite H.
Qed.

(** Anything else stops the loop with a [TypeError]. *)
Lemma update_product_raises first nums product w :
  updatable product = false ->
  raises_TypeError (fst (update_product self (first :: nums) product w))
  /\ snd (update_product self (first :: nums) product w) = w.
Proof.
  unfold raises_TypeError, update_product, bind, lift.
  destruct product as [| | | | s|l|d]; cbn [updatable py_contains];
    intros Hu; try (split; [eexists|]; reflexivity).
  - destruct (str_contains _ s); (split; [eexists|]; reflexivity).
  - destruct (existsb _ l); (split; [eexists|]; reflexivity).
  - unfold dict_has. fold page_reference in *.
    destruct (dict_get pystr_eqb page_reference d) as [ref|] eqn:E;
      [|discriminate].
    cbn [negb py_getitem]. fold page_reference. rewrite E.
    destruct ref; try discriminate; (split; [eexists|]; reflexivity).
Qed.

Lemma updatable_cases product :
  updatable product = true ->
  exists d, product = PyDict d
    /\ (dict_get pystr_eqb page_reference d = None
        \/ exists ref, dict_get pystr_eqb page_reference d = Some (PyDict ref)).
Proof.
  destruct product as [| | | | | |d]; try discriminate. cbn [updatable].
  destruct (dict_get pystr_eqb page_reference d) as [[| | | | | |ref]|] eqn:E;
    try discriminate; intros _; exists d; (split; [reflexivity|]).
  - right. exists ref. exact E.
  - left. exact E.
Qed.

(** Whatever the loop body returns carries the path, and it touches
    nothing outside the record. *)
Lemma update_product_returns nums product product' w w' :
  update_product self nums product w = (Ok product', w') ->
  has_file_path (pdf_path self) product' /\ w' = w
  /\ updatable product = true.
Proof.
  destruct (updatable product) eqn:Hu.
  - apply updatable_cases in Hu. destruct Hu as (d & -> & [Hn|[ref Hr]]).
    + destruct nums as [|first nums].
      * unfold update_product, bind, lift, py_contains, dict_has.
        fold page_reference. rewrite Hn. discriminate.
      * rewrite (update_product_absent _ _ _ _ Hn). intros [= <- <-].
        repeat split. eexists _, _. split; [reflexivity|].
        rewrite dict_get_set_same. split; [reflexivity|].
        cbn [dict_get]. now rewrite pystr_eqb_refl.
    + rewrite (update_product_present _ _ _ _ Hr). intros [= <- <-].
      repeat split. eexists _, _. split; [reflexivity|].
      rewrite dict_get_set_same. split; [reflexivity|].
      apply dict_get_set_same.
  - intros H. exfalso. revert H.
    unfold update_product, bind, lift.
    destruct product as [| | | | s|l|d]; cbn [updatable py_contains] in *;
      try discriminate.
    + destruct (str_contains _ s); [discriminate|].
      cbn [negb]. destruct (list_index nums 0); discriminate.
    + destruct (existsb _ l); [discriminate|].
      cbn [negb]. destruct (list_index nums 0); discriminate.
    + unfold dict_has. fold page_reference in *.
      destruct (dict_get pystr_eqb page_reference d) as [ref|] eqn:E;
        [|discriminate].
      cbn [negb py_getitem]. fold page_reference. rewrite E.
      destruct ref; discriminate.
Qed.
End Record.

(** ** The prompt and the model call *)

Lemma create_prompt_returns self page_texts page_nums w :
  _create_prompt self page_texts page_nums w
  = (Ok (prompt_text page_texts page_nums), w).
Proof. reflexivity. Qed.

Lemma parse_text_unfold self page_texts page_nums w :
  _parse_text_with_gemini self page_texts page_nums w
  = let prompt := prompt_text page_texts page_nums in
    match service w (trace w) prompt with
    | Ok r =>
        match first_text r with
        | Some t => (Ok (Some t), emit_event (EvGenerate prompt) w)
        | None =>
            (Ok None,
             after_call_error prompt (u "list index out of range") w)
        end
    | Raise e =>
        if isinstance_Exception (exn_cls e)
        then (Ok None, after_call_error prompt (exn_msg e) w)
        else (Raise e, emit_event (EvGenerate prompt) w)
    end.
Proof.
  unfold _parse_text_with_gemini, try_except.
  rewrite bind_unfold, create_prompt_returns, bind_unfold.
  unfold genai.generate_content at 1. cbv zeta.
  destruct (service w (trace w) _) as [r|e]; [|reflexivity].
  unfold first_text, bind, lift, list_index. cbn [Z.to_nat nth_error].
  destruct (candidates r) as [|c cs]; [reflexivity|].
  destruct (parts (cand_content c)); reflexivity.
Qed.

(** ** The response parser *)

Lemma extract_json_unfold self response_text w :
  _extract_json_from_response self response_text w
  = match re.search json_array_re response_text with
    | None => (Ok None, w)
    | Some m =>
        match fst (json.loads m w) with
        | Ok data => (Ok (Some data), w)
        | Raise e =>
            if isinstance_JSONDecodeError (exn_cls e)
            then (Ok None, after_decode_error w)
            else (Raise e, w)
        end
    end.
Proof.
  unfold _extract_json_from_response.
  destruct (re.search json_array_re response_text) as [m|]; [|reflexivity].
  unfold try_except, bind. rewrite loads_unfold. cbn [fst].
  destruct (if startswith _ m then _ else _) as [data|e]; [reflexivity|].
  now destruct (isinstance_JSONDecodeError (exn_cls e)).
Qed.

(** ** One batch *)

Section Batch.
Variable self : PDFProcessor.

Lemma map_M_cons {A B} (g : A -> M B) x xs w :
  map_M g (x :: xs) w
  = match g x w with
    | (Ok y, w1) =>
        match map_M g xs w1 with
        | (Ok ys, w2) => (Ok (y :: ys), w2)
        | (Raise e, w2) => (Raise e, w2)
        end
    | (Raise e, w1) => (Raise e, w1)
    end.
Proof.
  cbn [map_M]. rewrite bind_unfold.
  destruct (g x w) as [[y|e] w1]; [|reflexivity].
  rewrite bind_unfold. now destruct (map_M g xs w1) as [[ys|e] w2].
Qed.

(** The loop over the records returns only when every record was
    updatable, and then every one carries the path. *)
Lemma update_loop_returns nums products : forall products' w w',
  map_M (update_product self nums) products w = (Ok products', w') ->
  Forall (has_file_path (pdf_path self)) products' /\ w' = w
  /\ forallb updatable products = true.
Proof.
  induction products as [|p products IH]; intros products' w w'.
  - intros [= <- <-]. repeat split. constructor.
  - rewrite map_M_cons.
    destruct (update_product self nums p w) as [[p'|e] w1] eqn:E1;
      [|discriminate].
    destruct (map_M _ products w1) as [[ps'|e] w2] eqn:E2; [|discriminate].
    intros [= <- <-].
    apply update_product_returns in E1. destruct E1 as (H1 & -> & U1).
    apply IH in E2. destruct E2 as (H2 & -> & U2).
    repeat split; [now constructor|]. cbn [forallb]. now rewrite U1, U2.
Qed.

(** A record that is not updatable stops the loop with a
    [TypeError], whatever its place in the array. *)
Lemma update_loop_raises first nums products : forall w,
  forallb updatable products = false ->
  raises_TypeError
    (fst (map_M (update_product self (first :: nums)) products w))
  /\ snd (map_M (update_product self (first :: nums)) products w) = w.
Proof.
  induction products as [|p products IH]; intros w Hu; [discriminate|].
  rewrite map_M_cons. cbn [forallb] in Hu.
  destruct (updatable p) eqn:Up.
  - destruct (update_product self (first :: nums) p w) as [[p'|e] w1] eqn:E1.
    + apply update_product_returns in E1. destruct E1 as (_ & -> & _).
      destruct (IH w Hu) as [[msg Hr] Hw].
      destruct (map_M _ products w) as [[ps'|e] w2]; simpl in *;
        [discriminate|].
      subst. split; [now exists msg|reflexivity].
    + exfalso. apply updatable_cases in Up.
      destruct Up as (d & -> & [Hn|[ref Hr]]).
      * rewrite update_product_absent in E1 by exact Hn. discriminate.
      * rewrite (update_product_present _ _ _ _ _ Hr) in E1. discriminate.
  - destruct (update_product_raises self first nums p w Up) as [[msg Hr] Hw].
    destruct (update_product self (first :: nums) p w) as [[p'|e] w1];
      simpl in *; [discriminate|].
    injection Hr as ->. subst. split; [now exists msg|reflexivity].
Qed.
End Batch.

Section BatchResult.
Variable self : PDFProcessor.

Lemma update_products_list nums products w :
  update_products self nums (PyList products) w
  = match map_M (update_product self nums) products w with
    | (Ok products', w') => (Ok (PyList products'), w')
    | (Raise e, w') => (Raise e, w')
    end.
Proof.
  cbn [update_products]. rewrite bind_unfold.
  now destruct (map_M _ products w) as [[ps|e] w'].
Qed.

(** The loop returns only on a list, every record of which then
    carries the path. *)
Lemma update_products_returns nums data data' w w' :
  truthy data = true ->
  update_products self nums data w = (Ok data', w') ->
  exists products products',
    data = PyList products /\ data' = PyList products'
    /\ forallb updatable products = true
    /\ Forall (has_file_path (pdf_path self)) products' /\ w' = w.
Proof.
  intros Ht. destruct data as [| b| z| f| s| l| d];
    try (unfold update_products, bind, lift; simpl; discriminate).
  - (* a str: its characters *)
    destruct s as [|c s]; [discriminate|].
    unfold update_products. rewrite bind_unfold. unfold lift at 1.
    cbn [py_iter map]. rewrite bind_unfold.
    destruct (map_M _ _ w) as [[ps|e] w1] eqn:E; [|discriminate].
    apply update_loop_returns in E. now destruct E as (_ & _ & E).
  - rewrite update_products_list.
    destruct (map_M _ l w) as [[ps|e] w1] eqn:E; [|discriminate].
    intros [= <- <-]. apply update_loop_returns in E.
    destruct E as (H & -> & U). now exists l, ps.
  - (* a dict: its keys *)
    destruct d as [|[k v] d]; [discriminate|].
    unfold update_products. rewrite bind_unfold. unfold lift at 1.
    cbn [py_iter map]. rewrite bind_unfold.
    destruct (map_M _ _ w) as [[ps|e] w1] eqn:E; [|discriminate].
    apply update_loop_returns in E. now destruct E as (_ & _ & E).
Qed.

Lemma process_batch_unfold page_texts nums w :
  _process_batch self page_texts nums w
  = match _parse_text_with_gemini self page_texts nums w with
    | (Ok (Some (c :: t)), w1) =>
        match _extract_json_from_response self (c :: t) w1 with
        | (Ok (Some data), w2) =>
            if truthy data then
              match update_products self nums data w2 with
              | (Ok data', w3) => (Ok (Some data'), w3)
              | (Raise e, w3) => (Raise e, w3)
              end
            else (Ok None, w2)
        | (Ok None, w2) => (Ok None, w2)
        | (Raise e, w2) => (Raise e, w2)
        end
    | (Ok _, w1) => (Ok None, w1)
    | (Raise e, w1) => (Raise e, w1)
    end.
Proof.
  unfold _process_batch. rewrite bind_unfold.
  destruct (_parse_text_with_gemini _ _ _ w) as [[[[|c t]|]|e] w1];
    try reflexivity.
  rewrite bind_unfold.
  destruct (_extract_json_from_response _ _ w1) as [[[data|]|e] w2];
    try reflexivity.
  destruct (truthy data); [|reflexivity].
  rewrite bind_unfold.
  now destruct (update_products _ _ data w2) as [[d'|e] w3].
Qed.

(** What a batch hands back is nothing, or a list of records that
    carry the path. *)
Lemma process_batch_returns page_texts nums w r w' :
  _process_batch self page_texts nums w = (Ok r, w') ->
  r = None
  \/ exists products,
       r = Some (PyList products)
       /\ Forall (has_file_path (pdf_path self)) products.
Proof.
  rewrite process_batch_unfold.
  destruct (_parse_text_with_gemini _ _ _ w) as [[[[|c t]|]|e] w1];
    try (intros [= <- <-]; now left); try discriminate.
  destruct (_extract_json_from_response _ _ w1) as [[[data|]|e] w2];
    try (intros [= <- <-]; now left); try discriminate.
  destruct (truthy data) eqn:Ht; [|intros [= <- <-]; now left].
  destruct (update_products _ _ data w2) as [[d'|e] w3] eqn:E;
    [|discriminate].
  intros [= <- <-]. right.
  apply update_products_returns in E; trivial.
  destruct E as (ps & ps' & _ & -> & _ & H & _). now exists ps'.
Qed.

(** A batch never raises because of the model call or the parser:
    when a record of the decoded array is not updatable, it raises a
    [TypeError]. *)
Lemma process_batch_raises page_texts first nums w c reply w1 products w2 :
  _parse_text_with_gemini self page_texts (first :: nums) w
    = (Ok (Some (c :: reply)), w1) ->
  _extract_json_from_response self (c :: reply) w1
    = (Ok (Some (PyList products)), w2) ->
  forallb updatable products = false ->
  raises_TypeError
    (fst (_process_batch self page_texts (first :: nums) w))
  /\ snd (_process_batch self page_texts (first :: nums) w) = w2.
Proof.
  intros Hp Hj Hu. rewrite process_batch_unfold, Hp, Hj.
  destruct products as [|p ps]; [discriminate|]. cbn [truthy].
  rewrite update_products_list.
  destruct (update_loop_raises self first nums (p :: ps) w2 Hu)
    as [[msg Hr] Hw].
  destruct (map_M _ (p :: ps) w2) as [[ps'|e] w3]; simpl in *;
    [discriminate|].
  injection Hr as ->. subst. split; [now exists msg|reflexivity].
Qed.

(** *** The whole run *)

Lemma extend_products_list acc products w :
  extend_products acc (Some (PyList products)) w = (Ok (acc ++ products), w).
Proof.
  unfold extend_products. destruct products as [|p ps]; cbn [truthy].
  - now rewrite app_nil_r.
  - reflexivity.
Qed.

Lemma extend_products_none acc w :
  extend_products acc None w = (Ok acc, w).
Proof. reflexivity. Qed.

Lemma run_batches_records bs : forall acc w out w',
  run_batches (_process_batch self) bs acc w = (Ok out, w') ->
  Forall (has_file_path (pdf_path self)) acc ->
  Forall (has_file_path (pdf_path self)) out.
Proof.
  induction bs as [|[texts nums] bs IH]; intros acc w out w' Hr Ha.
  - now injection Hr as <- _.
  - cbn [run_batches] in Hr. rewrite bind_unfold in Hr.
    destruct (_process_batch self texts nums w) as [[r|e] w1] eqn:E;
      [|discriminate].
    apply process_batch_returns in E.
    destruct E as [->|(ps & -> & Hps)]; rewrite bind_unfold in Hr.
    + rewrite extend_products_none in Hr. now apply IH in Hr.
    + rewrite extend_products_list in Hr. apply IH in Hr; trivial.
      apply Forall_app. now split.
Qed.

Lemma extract_product_info_unfold w :
  extract_product_info self w
  = match _extract_text_from_pdf self w with
    | (Ok extracted_text, w1) =>
        run_batches (_process_batch self)
          (batches (BATCH_SIZE self) extracted_text) [] w1
    | (Raise e, w1) => (Raise e, w1)
    end.
Proof.
  unfold extract_product_info. rewrite bind_unfold.
  destruct (_extract_text_from_pdf self w) as [[items|e] w1]; [|reflexivity].
  rewrite bind_ret_r. unfold _process_text_batches.
  apply process_text_batches_runs.
Qed.

Lemma emitted_records w recs w' :
  extract_product_info self w = (Ok recs, w') ->
  Forall (has_file_path (pdf_path self)) recs.
Proof.
  rewrite extract_product_info_unfold.
  destruct (_extract_text_from_pdf self w) as [[items|e] w1]; [|discriminate].
  intros H. apply run_batches_records in H; trivial.
Qed.
End BatchResult.

(** * The claims *)

(** ** The text extractor *)

(** C5: when a page cannot be read, the extractor raises with the
    document still open: the history of the run holds the opening and
    no closing, so one handle is left.  On the catalog whose second
    page is damaged the extractor opens the document, logs the error
    and re-raises it. *)
Theorem C5_handle_left_open_when_a_page_fails :
  _extract_text_from_pdf processor damaged_world
  = (Raise (mkExn (LibraryError "FileDataError") (u "cannot load page")),
     mkWorld (disk damaged_world) (service damaged_world)
       (stack_room damaged_world)
       [EvOpen catalog;
        EvLogError (u "Error extracting text from PDF: cannot load page")])
  /\ open_handles
       (trace (snd (_extract_text_from_pdf processor damaged_world))) = 1.
Proof. split; reflexivity. Qed.

(** On the path where every page is read the document is closed. *)
Lemma extract_closes_after_reading self w doc texts :
  disk w (pdf_path self) = Ok doc ->
  doc_pages doc = map Ok texts ->
  open_handles (trace (snd (_extract_text_from_pdf self w)))
  = open_handles (trace w).
Proof.
  intros Hd Hp. rewrite (extract_ok self w doc texts Hd Hp).
  cbn [snd emit_event trace]. rewrite !open_handles_app. simpl. lia.
Qed.

(** On the path where a page fails it stays open. *)
Lemma extract_leaks_on_read_failure self w doc texts e rest :
  disk w (pdf_path self) = Ok doc ->
  doc_pages doc = map Ok texts ++ Raise e :: rest ->
  open_handles (trace (snd (_extract_text_from_pdf self w)))
  = open_handles (trace w) + 1.
Proof.
  intros Hd Hp. rewrite (extract_read_fails self w doc texts e rest Hd Hp).
  cbn [snd]. rewrite after_extract_error_handles.
  cbn [emit_event trace]. rewrite open_handles_app. simpl. lia.
Qed.

Lemma extract_fails self w e :
  pdf_failure w (pdf_path self) e ->
  exists w', _extract_text_from_pdf self w = (Raise e, w')
             /\ requests (trace w') = requests (trace w).
Proof.
  intros [Hd|doc texts rest Hd Hp].
  - rewrite (extract_open_fails self w e Hd). eexists. split; [reflexivity|].
    apply after_extract_error_requests.
  - rewrite (extract_read_fails self w doc texts e rest Hd Hp).
    eexists. split; [reflexivity|].
    rewrite after_extract_error_requests. cbn [emit_event trace].
    rewrite requests_app. simpl. apply app_nil_r.
Qed.

(** C7: a failure to open the PDF or to read one of its pages ends the
    run: [extract_product_info] raises that very error, returns no
    records, and no request has gone to the model. *)
Theorem C7_pdf_failure_is_fatal self w e :
  pdf_failure w (pdf_path self) e ->
  exists w',
    extract_product_info self w = (Raise e, w')
    /\ requests (trace w') = requests (trace w).
Proof.
  intros Hf. destruct (extract_fails self w e Hf) as (w' & He & Hr).
  exists w'. split; [|exact Hr].
  now rewrite extract_product_info_unfold, He.
Qed.

Lemma C7_witness :
  exists w',
    extract_product_info processor damaged_world
    = (Raise (mkExn (LibraryError "FileDataError") (u "cannot load page")), w')
    /\ requests (trace w') = requests (trace damaged_world).
Proof.
  apply (C7_pdf_failure_is_fatal processor damaged_world).
  apply (read_failure _ _ _ damaged [u "Sofa X"] []); reflexivity.
Defined.

(** ** The prompt builder *)

(** C8: the prompt is a function of the page texts and page numbers
    alone: two calls with the same arguments, on any processor objects
    and in any states of the world, return the same string, raise
    nothing and change nothing. *)
Theorem C8_prompt_is_deterministic self1 self2 w1 w2 page_texts page_nums :
  exists prompt,
    _create_prompt self1 page_texts page_nums w1 = (Ok prompt, w1)
    /\ _create_prompt self2 page_texts page_nums w2 = (Ok prompt, w2).
Proof.
  exists (prompt_text page_texts page_nums).
  split; apply create_prompt_returns.
Qed.

(** ** The model caller *)

(** C10: whatever response object the service returns, the model
    caller returns: the text of the first part of the first candidate
    when there is one, and "no result" when the candidates or the
    parts of the first candidate are empty. *)
Theorem C10_model_caller_total_on_responses
    self page_texts page_nums w (r : response) :
  service w (trace w) (prompt_text page_texts page_nums) = Ok r ->
  exists w',
    _parse_text_with_gemini self page_texts page_nums w = (Ok (first_text r), w')
    /\ (candidates r = [] -> first_text r = None)
    /\ (forall c cs, candidates r = c :: cs -> parts (cand_content c) = [] ->
          first_text r = None).
Proof.
  intros Hs. rewrite parse_text_unfold. cbv zeta. rewrite Hs.
  destruct (first_text r) as [t|] eqn:E; eexists;
    (split; [reflexivity|]); unfold first_text in *; split.
  - intros H. now rewrite H in E.
  - intros c cs H1 H2. now rewrite H1, H2 in E.
  - reflexivity.
  - reflexivity.
Qed.

Lemma C10_witness :
  exists w',
    _parse_text_with_gemini processor [u "Sofa X"] [1]
      (world_replying (Ok (mkResponse [])))
    = (Ok None, w').
Proof.
  destruct (C10_model_caller_total_on_responses processor [u "Sofa X"] [1]
              (world_replying (Ok (mkResponse []))) (mkResponse []) eq_refl)
    as (w' & H & _).
  exists w'. exact H.
Defined.

(** ** The batcher *)

(** A list of pages is all readable, or has a first page that is not. *)
Lemma pages_readable_or_not (pages : list (result pystr)) :
  (exists texts, pages = map Ok texts)
  \/ (exists texts e rest, pages = map Ok texts ++ Raise e :: rest).
Proof.
  induction pages as [|[t|e] pages IH].
  - left. now exists [].
  - destruct IH as [[texts ->]|(texts & e & rest & ->)].
    + left. now exists (t :: texts).
    + right. now exists (t :: texts), e, rest.
  - right. now exists [], e, pages.
Qed.

(** The page map the extractor returns has the keys 1, 2, ... in
    ascending order. *)
Lemma extracted_keys self w items w' :
  _extract_text_from_pdf self w = (Ok items, w') ->
  map fst items = map Z.of_nat (seq 1 (List.length items)).
Proof.
  destruct (disk w (pdf_path self)) as [doc|e] eqn:Hd;
    [|now rewrite (extract_open_fails self w e Hd)].
  destruct (pages_readable_or_not (doc_pages doc))
    as [[texts Hp]|(texts & e & rest & Hp)].
  - rewrite (extract_ok self w doc texts Hd Hp). intros [= <- _].
    rewrite number_pages_keys, number_pages_length, <- seq_shift, map_map.
    apply map_ext. intros i. lia.
  - now rewrite (extract_read_fails self w doc texts e rest Hd Hp).
Qed.

(** C2: with batch size [N > 0], the loop over a page map of [P] pages
    calls the batch processor on exactly the batches [batches N items],
    in order; there are [ceil(P / N)] of them; each is a pair of
    non-empty sequences of equal length; each has [N] pages except the
    last, which has [P mod N] pages, or [N] if that is 0; the page
    numbers of the batches, concatenated, are the keys of the map in
    its order, which for a map from the extractor is 1, 2, ..., [P];
    and without pages there is no batch and the result of the loop
    and of the whole run is empty. *)
Theorem C2_batches (N : Z) (items : page_map) :
  0 < N ->
  let P := len items in
  let bs := batches N items in
  (forall process_batch w,
     process_text_batches process_batch N items w
     = run_batches process_batch bs [] w)
  /\ len bs = (P + N - 1) / N
  /\ Forall (fun b => List.length (fst b) = List.length (snd b)
                      /\ fst b <> [] /\ snd b <> []) bs
  /\ (forall i b, nth_error bs i = Some b ->
        len (fst b) = if Z.of_nat i + 1 <? len bs then N else last_size N P)
  /\ List.concat (map snd bs) = map fst items
  /\ List.concat (map fst bs) = map snd items
  /\ (forall self w w',
        _extract_text_from_pdf self w = (Ok items, w') ->
        List.concat (map snd bs)
        = map Z.of_nat (seq 1 (List.length items)))
  /\ (P = 0 ->
        bs = []
        /\ (forall process_batch w,
              process_text_batches process_batch N items w = (Ok [], w))
        /\ (forall self w w',
              BATCH_SIZE self = N ->
              _extract_text_from_pdf self w = (Ok items, w') ->
              extract_product_info self w = (Ok [], w'))).
Proof.
  intros HN P bs. subst P bs. unfold batches.
  assert (Hc : List.concat (map snd (batches_from N items [] []))
               = map fst items)
    by (now rewrite batches_from_concat_nums).
  repeat split.
  - intros f w. apply process_text_batches_runs.
  - rewrite batches_from_count by (trivial; change (len (@nil pystr)) with 0; lia).
    change (len (@nil pystr)) with 0. f_equal.
  - now apply batches_from_parallel.
  - intros i b Hb.
    rewrite (batches_from_sizes N HN items [] [] i b)
      by (trivial; change (len (@nil pystr)) with 0; lia).
    reflexivity.
  - exact Hc.
  - now rewrite batches_from_concat_texts.
  - intros self w w' He. rewrite Hc. now apply extracted_keys in He.
  - destruct items; [reflexivity|]. unfold len in H. simpl in H. lia.
  - intros f w. destruct items; [reflexivity|]. unfold len in H. simpl in H. lia.
  - intros self w w' HB He. rewrite extract_product_info_unfold, He, HB.
    destruct items; [reflexivity|]. unfold len in H. simpl in H. lia.
Qed.

Lemma C2_witness :
  batches 2 (number_pages 1 [u "Sofa X"; u "Tavolo Y"; u "Sedia Z"])
  = [([u "Sofa X"; u "Tavolo Y"], [1; 2]); ([u "Sedia Z"], [3])]
  /\ len (batches 2 (number_pages 1 [u "Sofa X"; u "Tavolo Y"; u "Sedia Z"]))
     = (3 + 2 - 1) / 2.
Proof.
  split; [reflexivity|].
  apply (C2_batches 2 (number_pages 1 [u "Sofa X"; u "Tavolo Y"; u "Sedia Z"])).
  lia.
Defined.

(** An empty document gives an empty result. *)
Lemma empty_document self w doc :
  disk w (pdf_path self) = Ok doc ->
  doc_pages doc = [] ->
  fst (extract_product_info self w) = Ok [].
Proof.
  intros Hd Hp. rewrite extract_product_info_unfold.
  now rewrite (extract_ok self w doc [] Hd Hp).
Qed.

(** ** The response parser *)




(** ** Model errors *)

Lemma run_batches_concat self bs w rs w' :
  batch_results self bs w rs w' ->
  forall acc,
    run_batches (_process_batch self) bs acc w
    = (Ok (acc ++ List.concat (map records_of rs)), w').
Proof.
  induction 1 as [w|page_texts nums bs w r w1 rs w' Hb _ IH]; intros acc.
  - simpl. now rewrite app_nil_r.
  - cbn [run_batches]. rewrite bind_unfold, Hb.
    destruct (process_batch_returns self _ _ _ _ _ Hb) as [->|(ps & -> & _)];
      rewrite bind_unfold.
    + rewrite extend_products_none. apply IH.
    + rewrite extend_products_list, IH. cbn [map List.concat records_of].
      now rewrite app_assoc.
Qed.

(** C4: when the model call of a batch raises an [Exception], the
    model caller logs it and returns "no result", the batch hands back
    nothing, and the run goes on with the batches that follow, from
    the records gathered so far: the final result is those records
    followed by the records of the later batches. *)
Theorem C4_model_error_drops_only_the_batch
    self w items bs1 page_texts nums bs2 acc w1 e :
  batches (BATCH_SIZE self) items = bs1 ++ (page_texts, nums) :: bs2 ->
  run_batches (_process_batch self) bs1 [] w = (Ok acc, w1) ->
  service w1 (trace w1) (prompt_text page_texts nums) = Raise e ->
  isinstance_Exception (exn_cls e) = true ->
  let w2 := after_call_error (prompt_text page_texts nums) (exn_msg e) w1 in
  _parse_text_with_gemini self page_texts nums w1 = (Ok None, w2)
  /\ _process_batch self page_texts nums w1 = (Ok None, w2)
  /\ _process_text_batches self items w
     = run_batches (_process_batch self) bs2 acc w2
  /\ forall rs w3,
       batch_results self bs2 w2 rs w3 ->
       _process_text_batches self items w
       = (Ok (acc ++ List.concat (map records_of rs)), w3).
Proof.
  intros Hb Hr Hs He w2.
  assert (Hp : _parse_text_with_gemini self page_texts nums w1 = (Ok None, w2)).
  { rewrite parse_text_unfold. cbv zeta. now rewrite Hs, He. }
  assert (Hpb : _process_batch self page_texts nums w1 = (Ok None, w2)).
  { now rewrite process_batch_unfold, Hp. }
  assert (Hrun : _process_text_batches self items w
                 = run_batches (_process_batch self) bs2 acc w2).
  { unfold _process_text_batches.
    rewrite process_text_batches_runs, Hb, run_batches_app, Hr.
    cbn [run_batches]. rewrite bind_unfold, Hpb, bind_unfold.
    now rewrite extend_products_none. }
  repeat split; trivial.
  intros rs w3 Hrs. rewrite Hrun. now apply run_batches_concat.
Qed.

Lemma C4_witness :
  _process_text_batches processor three_page_map
    (world_replying (Raise timeout_error))
  = run_batches (_process_batch processor) [([u "Sedia Z"], [3])] []
      (after_call_error (prompt_text [u "Sofa X"; u "Tavolo Y"] [1; 2])
         (exn_msg timeout_error) (world_replying (Raise timeout_error))).
Proof.
  apply (C4_model_error_drops_only_the_batch processor
           (world_replying (Raise timeout_error)) three_page_map
           [] [u "Sofa X"; u "Tavolo Y"] [1; 2] [([u "Sedia Z"], [3])]
           [] (world_replying (Raise timeout_error)) timeout_error);
    reflexivity.
Defined.

(** ** Post-processing *)

Lemma dict_has_get {V} k (d : list (pystr * V)) :
  dict_has pystr_eqb k d = false <-> dict_get pystr_eqb k d = None.
Proof. unfold dict_has. now destruct (dict_get pystr_eqb k d). Qed.

Lemma batch_has_first N items page_texts nums :
  In (page_texts, nums) (batches N items) ->
  exists first rest, nums = first :: rest.
Proof.
  intros Hin.
  pose proof (batches_from_parallel N items [] [] eq_refl) as Hf.
  rewrite Forall_forall in Hf. destruct (Hf _ Hin) as (_ & _ & Hn).
  cbn [snd] in Hn. destruct nums as [|first rest]; [congruence|].
  now exists first, rest.
Qed.

(** C1, as stated, fails: the record has the key, and the assignment
    to [file_path] raises. *)
Lemma C1_counterexample :
  dict_has pystr_eqb page_reference bare_reference = true
  /\ update_product processor [1] (PyDict bare_reference) empty_world
     = (Raise (type_error
                 "list indices must be integers or slices, not str"),
        empty_world).
Proof. split; reflexivity. Qed.

(** C1 (amended): for a record whose [page_reference] is an object,
    post-processing returns the record with [file_path] of that object
    set to the input path; every other entry of the object, the page
    numbers among them, and every other field of the record are as
    before, and no key moves.  Every record the pipeline returns has
    an object under [page_reference] whose [file_path] is the input
    path. *)
Theorem C1_present_reference_keeps_page_numbers :
  (forall self nums d ref w,
     dict_get pystr_eqb page_reference d = Some (PyDict ref) ->
     exists d' ref',
       update_product self nums (PyDict d) w = (Ok (PyDict d'), w)
       /\ dict_get pystr_eqb page_reference d' = Some (PyDict ref')
       /\ dict_get pystr_eqb file_path ref' = Some (PyStr (pdf_path self))
       /\ (forall k, k <> file_path ->
             dict_get pystr_eqb k ref' = dict_get pystr_eqb k ref)
       /\ (forall k, k <> page_reference ->
             dict_get pystr_eqb k d' = dict_get pystr_eqb k d)
       /\ map fst d' = map fst d)
  /\ (forall self w recs w',
        extract_product_info self w = (Ok recs, w') ->
        Forall (has_file_path (pdf_path self)) recs).
Proof.
  split.
  - intros self nums d ref w Hr. eexists _, _.
    split; [apply (update_product_present self nums d ref w Hr)|].
    split; [apply dict_get_set_same|].
    split; [apply dict_get_set_same|].
    split; [intros k Hk; now apply dict_get_set_other|].
    split; [intros k Hk; now apply dict_get_set_other|].
    apply dict_set_keys_present. unfold dict_has. now rewrite Hr.
  - intros self w recs w'. apply emitted_records.
Qed.

Lemma C1_witness :
  exists d' ref',
    update_product processor [1] (PyDict referenced) empty_world
    = (Ok (PyDict d'), empty_world)
    /\ dict_get pystr_eqb page_reference d' = Some (PyDict ref')
    /\ dict_get pystr_eqb page_numbers ref' = Some (PyList [PyInt 7]).
Proof.
  destruct (proj1 C1_present_reference_keeps_page_numbers processor [1]
              referenced
              [(file_path, PyStr (u "somewhere.pdf"));
               (page_numbers, PyList [PyInt 7])]
              empty_world eq_refl)
    as (d' & ref' & Hu & Hd & _ & Hk & _).
  exists d', ref'. split; [exact Hu|]. split; [exact Hd|].
  rewrite Hk; [reflexivity|discriminate].
Defined.



(** Scenario 3, on the three-page catalog with batches of two pages:
    each of the two replies gives one record, to which the first page
    number of its batch is added. *)
Example scenario_3 :
  fst (extract_product_info processor
         (world_replying (Ok (reply_with sofa_reply))))
  = Ok [PyDict [(u "product_name", PyStr (u "Sofa X"));
                (page_reference,
                 PyDict [(file_path, PyStr catalog);
                         (page_numbers, PyList [PyInt 1])])];
        PyDict [(u "product_name", PyStr (u "Sofa X"));
                (page_reference,
                 PyDict [(file_path, PyStr catalog);
                         (page_numbers, PyList [PyInt 3])])]].
Proof. reflexivity. Qed.

(** C9: when the array decoded for a batch holds an element that is
    not an object, or an object whose [page_reference] is not an
    object, the run raises a [TypeError]: nothing between the loop
    over the records and the caller of [extract_product_info] catches
    it.  The loop body raises a [TypeError] on every such element, and
    returns exactly on the others. *)
Theorem C9_unexpected_record_aborts_the_run
    self w items w0 bs1 page_texts nums bs2 acc w1 c reply w2 products w3 :
  _extract_text_from_pdf self w = (Ok items, w0) ->
  batches (BATCH_SIZE self) items = bs1 ++ (page_texts, nums) :: bs2 ->
  run_batches (_process_batch self) bs1 [] w0 = (Ok acc, w1) ->
  _parse_text_with_gemini self page_texts nums w1
    = (Ok (Some (c :: reply)), w2) ->
  _extract_json_from_response self (c :: reply) w2
    = (Ok (Some (PyList products)), w3) ->
  forallb updatable products = false ->
  (exists msg,
     extract_product_info self w = (Raise (mkExn TypeError msg), w3))
  /\ (forall first rest product w',
        updatable product = false ->
        raises_TypeError
          (fst (update_product self (first :: rest) product w')))
  /\ (forall first rest product w',
        (exists product',
           update_product self (first :: rest) product w' = (Ok product', w'))
        <-> updatable product = true).
Proof.
  intros He Hb Hr Hp Hj Hu. split; [|split].
  - destruct (batch_has_first (BATCH_SIZE self) items page_texts nums)
      as (first & rest & ->).
    { rewrite Hb. apply in_elt. }
    destruct (process_batch_raises self _ _ _ _ _ _ _ _ _ Hp Hj Hu)
      as [[msg Hm] Hw].
    exists msg. rewrite extract_product_info_unfold, He, Hb.
    rewrite run_batches_app, Hr. cbn [run_batches]. rewrite bind_unfold.
    destruct (_process_batch self page_texts (first :: rest) w1)
      as [[r|e] w4]; simpl in *; [discriminate|].
    now injection Hm as ->; subst.
  - intros first rest product w' Hn.
    destruct (update_product_raises self first rest product w' Hn)
      as [[msg Hm] _].
    now exists msg.
  - intros first rest product w'. split.
    + intros [product' H]. now apply update_product_returns in H.
    + intros H. apply updatable_cases in H.
      destruct H as (d & -> & [Hn|[ref Hr']]).
      * eexists. now apply update_product_absent.
      * eexists. exact (update_product_present self _ d ref w' Hr').
Qed.

Lemma C9_witness :
  exists msg w',
    extract_product_info processor (world_replying (Ok (reply_with mixed_reply)))
    = (Raise (mkExn TypeError msg), w').
Proof.
  destruct (C9_unexpected_record_aborts_the_run processor
              (world_replying (Ok (reply_with mixed_reply)))
              three_page_map
              (emit_event (EvClose catalog)
                 (emit_event (EvOpen catalog)
                    (world_replying (Ok (reply_with mixed_reply)))))
              [] [u "Sofa X"; u "Tavolo Y"] [1; 2] [([u "Sedia Z"], [3])] []
              (emit_event (EvClose catalog)
                 (emit_event (EvOpen catalog)
                    (world_replying (Ok (reply_with mixed_reply)))))
              91%N (tl mixed_reply)
              (emit_event (EvGenerate (prompt_text [u "Sofa X"; u "Tavolo Y"] [1; 2]))
                 (emit_event (EvClose catalog)
                    (emit_event (EvOpen catalog)
                       (world_replying (Ok (reply_with mixed_reply))))))
              [PyDict [(u "product_name", PyStr (u "Sofa X"))]; PyInt 7;
               PyDict [(u "product_name", PyStr (u "Tavolo Y"))]]
              (emit_event (EvGenerate (prompt_text [u "Sofa X"; u "Tavolo Y"] [1; 2]))
                 (emit_event (EvClose catalog)
                    (emit_event (EvOpen catalog)
                       (world_replying (Ok (reply_with mixed_reply)))))))
    as [[msg H] _]; try reflexivity.
  exists msg. eexists. exact H.
Defined.

(** * Further properties *)

(** ** The extractor, further *)

Lemma number_pages_lookup texts : forall first i t,
  nth_error texts i = Some t ->
  dict_get Z.eqb (first + Z.of_nat i) (number_pages first texts) = Some t.
Proof.
  induction texts as [|t0 texts IH]; intros first i t Hn;
    [now destruct i|].
  destruct i as [|i]; cbn [number_pages dict_get].
  - injection Hn as ->. now rewrite Z.add_0_r, Z.eqb_refl.
  - destruct (Z.eqb_spec (first + Z.of_nat (S i)) first) as [E|_]; [lia|].
    replace (first + Z.of_nat (S i)) with (first + 1 + Z.of_nat i) by lia.
    now apply IH.
Qed.

Lemma number_pages_lookup_below texts : forall first k,
  k < first -> dict_get Z.eqb k (number_pages first texts) = None.
Proof.
  induction texts as [|t0 texts IH]; intros first k Hk; [reflexivity|].
  cbn [number_pages dict_get].
  destruct (Z.eqb_spec k first) as [E|_]; [lia|]. apply IH. lia.
Qed.

(** X1: when every page can be read, the extractor returns a map of as
    many entries as the document has pages, in which page number
    [i + 1] is bound to the text of the page at index [i] and no page
    number is below 1; the document was opened and then closed, and
    nothing else happened. *)
Theorem X1_extractor_numbers_pages_from_one self w doc texts :
  disk w (pdf_path self) = Ok doc ->
  doc_pages doc = map Ok texts ->
  exists items,
    _extract_text_from_pdf self w
    = (Ok items,
       emit_event (EvClose (doc_name doc))
         (emit_event (EvOpen (doc_name doc)) w))
    /\ len items = fitz.page_count doc
    /\ (forall i t, nth_error texts i = Some t ->
          dict_get Z.eqb (Z.of_nat i + 1) items = Some t)
    /\ (forall k, k < 1 -> dict_get Z.eqb k items = None).
Proof.
  intros Hd Hp. exists (number_pages 1 texts).
  split; [now apply extract_ok|]. split; [|split].
  - unfold len, fitz.page_count, len.
    now rewrite number_pages_length, Hp, length_map.
  - intros i t Hn. rewrite Z.add_comm. now apply number_pages_lookup.
  - intros k Hk. now apply number_pages_lookup_below.
Qed.

Lemma X1_witness :
  exists items,
    _extract_text_from_pdf processor (world_replying (Ok (reply_with [])))
    = (Ok items,
       emit_event (EvClose catalog)
         (emit_event (EvOpen catalog) (world_replying (Ok (reply_with [])))))
    /\ dict_get Z.eqb 3 items = Some (u "Sedia Z").
Proof.
  destruct (X1_extractor_numbers_pages_from_one processor
              (world_replying (Ok (reply_with []))) three_pages
              [u "Sofa X"; u "Tavolo Y"; u "Sedia Z"] eq_refl eq_refl)
    as (items & He & _ & Hl & _).
  exists items. split; [exact He|]. exact (Hl 2%nat (u "Sedia Z") eq_refl).
Defined.

(** X2: when the document cannot be opened, the extractor raises the
    error of [fitz.open]; no handle is left open; an [Exception] is
    logged once with its message, anything else leaves no trace. *)
Theorem X2_open_failure_leaves_nothing_open self w e :
  disk w (pdf_path self) = Raise e ->
  exists w',
    _extract_text_from_pdf self w = (Raise e, w')
    /\ open_handles (trace w') = open_handles (trace w)
    /\ trace w'
       = if isinstance_Exception (exn_cls e)
         then trace w
              ++ [EvLogError (u "Error extracting text from PDF: " ++ exn_msg e)]
         else trace w.
Proof.
  intros Hd. exists (after_extract_error e w).
  split; [now apply extract_open_fails|].
  split; [apply after_extract_error_handles|].
  unfold after_extract_error. now destruct (isinstance_Exception (exn_cls e)).
Qed.

Lemma X2_witness :
  exists w',
    _extract_text_from_pdf processor world_without_file
    = (Raise missing_file, w')
    /\ open_handles (trace w') = 0.
Proof.
  destruct (X2_open_failure_leaves_nothing_open processor world_without_file
              missing_file eq_refl) as (w' & He & Ho & _).
  exists w'. split; [exact He|exact Ho].
Defined.

Lemma extractor_frame self w :
  requests (trace (snd (_extract_text_from_pdf self w))) = requests (trace w)
  /\ disk (snd (_extract_text_from_pdf self w)) = disk w
  /\ service (snd (_extract_text_from_pdf self w)) = service w.
Proof.
  destruct (disk w (pdf_path self)) as [doc|e] eqn:Hd.
  - destruct (pages_readable_or_not (doc_pages doc))
      as [[texts Hp]|(texts & e & rest & Hp)].
    + rewrite (extract_ok self w doc texts Hd Hp). cbn [snd].
      repeat split. cbn [emit_event trace].
      rewrite !requests_app. simpl. now rewrite !app_nil_r.
    + rewrite (extract_read_fails self w doc texts e rest Hd Hp). cbn [snd].
      rewrite after_extract_error_requests. unfold after_extract_error.
      destruct (isinstance_Exception (exn_cls e)); repeat split;
        cbn [emit_event trace]; rewrite requests_app; simpl;
        now rewrite app_nil_r.
  - rewrite (extract_open_fails self w e Hd). cbn [snd].
    rewrite after_extract_error_requests. unfold after_extract_error.
    now destruct (isinstance_Exception (exn_cls e)).
Qed.

(** X3: whatever the document, the extractor sends nothing to the
    model, and the disk and the service are as before. *)
Theorem X3_extractor_sends_no_request self w :
  requests (trace (snd (_extract_text_from_pdf self w))) = requests (trace w)
  /\ disk (snd (_extract_text_from_pdf self w)) = disk w
  /\ service (snd (_extract_text_from_pdf self w)) = service w.
Proof. apply extractor_frame. Qed.

(** ** Requests *)

Section Worlds.
Variable self : PDFProcessor.

(** The loop body touches the record only. *)
Lemma update_product_world nums product w :
  snd (update_product self nums product w) = w.
Proof.
  unfold update_product, bind, lift.
  destruct (py_contains (u "page_reference") product) as [[|]|e];
    cbn [negb snd]; trivial.
  - destruct (py_getitem product (u "page_reference")) as [ref|e];
      cbn [snd]; trivial.
    destruct (py_setitem ref (u "file_path") (PyStr (pdf_path self)));
      cbn [snd]; trivial.
  - destruct (list_index nums 0); cbn [snd]; trivial.
Qed.

Lemma update_loop_world nums products : forall w,
  snd (map_M (update_product self nums) products w) = w.
Proof.
  induction products as [|p ps IH]; intros w; [reflexivity|].
  rewrite map_M_cons. pose proof (update_product_world nums p w) as Hp.
  destruct (update_product self nums p w) as [[p'|e] w1]; cbn [snd] in *;
    subst w1; [|reflexivity].
  specialize (IH w).
  now destruct (map_M (update_product self nums) ps w) as [[ps'|e] w2].
Qed.

Lemma update_products_world nums data w :
  snd (update_products self nums data w) = w.
Proof.
  destruct data as [| b| z| f| s| l| d];
    try reflexivity; unfold update_products.
  - rewrite bind_unfold. unfold lift at 1. cbn [py_iter].
    rewrite bind_unfold.
    pose proof (update_loop_world nums (map (fun c => PyStr [c]) s) w) as H.
    now destruct (map_M _ _ w) as [[ps|e] w1].
  - rewrite bind_unfold.
    pose proof (update_loop_world nums l w) as H.
    now destruct (map_M _ l w) as [[ps|e] w1].
  - rewrite bind_unfold. unfold lift at 1. cbn [py_iter].
    rewrite bind_unfold.
    pose proof (update_loop_world nums (map (fun kv => PyStr (fst kv)) d) w)
      as H.
    now destruct (map_M _ _ w) as [[ps|e] w1].
Qed.

Lemma parse_text_requests page_texts nums w :
  requests (trace (snd (_parse_text_with_gemini self page_texts nums w)))
  = requests (trace w) ++ [prompt_text page_texts nums].
Proof.
  rewrite parse_text_unfold. cbv zeta.
  destruct (service w (trace w) _) as [r|e].
  - destruct (first_text r); cbn [snd after_call_error emit_event trace];
      rewrite ?requests_app; simpl; now rewrite ?app_nil_r.
  - destruct (isinstance_Exception (exn_cls e));
      cbn [snd after_call_error emit_event trace];
      rewrite ?requests_app; simpl; now rewrite ?app_nil_r.
Qed.

Lemma extract_json_requests s w :
  requests (trace (snd (_extract_json_from_response self s w)))
  = requests (trace w).
Proof.
  rewrite extract_json_unfold.
  destruct (re.search json_array_re s) as [m|]; [|reflexivity].
  destruct (fst (json.loads m w)) as [data|e]; [reflexivity|].
  destruct (isinstance_JSONDecodeError (exn_cls e)); [|reflexivity].
  cbn [snd after_decode_error emit_event trace].
  rewrite requests_app. simpl. apply app_nil_r.
Qed.

(** A batch sends its prompt, once, whatever comes of it. *)
Lemma process_batch_requests page_texts nums w :
  requests (trace (snd (_process_batch self page_texts nums w)))
  = requests (trace w) ++ [prompt_text page_texts nums].
Proof.
  rewrite process_batch_unfold.
  pose proof (parse_text_requests page_texts nums w) as Hp.
  destruct (_parse_text_with_gemini self page_texts nums w)
    as [[[[|c t]|]|e] w1]; cbn [snd] in Hp; trivial.
  pose proof (extract_json_requests (c :: t) w1) as Hj.
  destruct (_extract_json_from_response self (c :: t) w1)
    as [[[data|]|e] w2]; cbn [snd] in Hj; try (cbn [snd]; congruence).
  destruct (truthy data); [|cbn [snd]; congruence].
  pose proof (update_products_world nums data w2) as Hu.
  destruct (update_products self nums data w2) as [[d'|e] w3];
    cbn [snd] in *; congruence.
Qed.

Lemma extend_products_world acc r w :
  snd (extend_products acc r w) = w.
Proof.
  unfold extend_products. destruct r as [v|]; [|reflexivity].
  destruct (truthy v); [|reflexivity].
  rewrite bind_unfold. unfold lift. now destruct (py_iter v).
Qed.

(** A run that returns has sent the prompt of every batch, in order. *)
Lemma run_batches_requests bs : forall acc w out w',
  run_batches (_process_batch self) bs acc w = (Ok out, w') ->
  requests (trace w') = requests (trace w) ++ map batch_prompt bs.
Proof.
  induction bs as [|[texts nums] bs IH]; intros acc w out w' Hr.
  - injection Hr as _ <-. now rewrite app_nil_r.
  - cbn [run_batches] in Hr. rewrite bind_unfold in Hr.
    pose proof (process_batch_requests texts nums w) as Hb.
    destruct (_process_batch self texts nums w) as [[r|e] w1];
      [|discriminate].
    rewrite bind_unfold in Hr.
    pose proof (extend_products_world acc r w1) as He.
    destruct (extend_products acc r w1) as [[acc'|e] w2]; [|discriminate].
    cbn [snd] in *. subst w2. apply IH in Hr. rewrite Hr, Hb.
    now rewrite <- app_assoc.
Qed.
End Worlds.

(** X4: a run that returns has sent one request for each batch of the
    page map, in the order of the batches and with the prompt of the
    batch, and no other: nothing is retried.  With a positive batch
    size that is [ceil(P / N)] requests for [P] pages, and a processor
    as [__init__] builds it sends one for every two pages. *)
Theorem X4_one_request_per_batch self w items w0 recs w' :
  _extract_text_from_pdf self w = (Ok items, w0) ->
  extract_product_info self w = (Ok recs, w') ->
  requests (trace w')
  = requests (trace w) ++ map batch_prompt (batches (BATCH_SIZE self) items)
  /\ (0 < BATCH_SIZE self ->
      len (requests (trace w'))
      = len (requests (trace w))
        + (len items + BATCH_SIZE self - 1) / BATCH_SIZE self)
  /\ (forall path key, self = __init__ path key ->
        len (requests (trace w'))
        = len (requests (trace w)) + (len items + 1) / 2).
Proof.
  intros He Hr. rewrite extract_product_info_unfold, He in Hr.
  apply run_batches_requests in Hr.
  destruct (extractor_frame self w) as [H3 _].
  rewrite He in H3. cbn [snd] in H3. rewrite H3 in Hr.
  assert (Hc : 0 < BATCH_SIZE self ->
               len (requests (trace w'))
               = len (requests (trace w))
                 + (len items + BATCH_SIZE self - 1) / BATCH_SIZE self).
  { intros HN. rewrite Hr. unfold len at 1 2.
    rewrite length_app, length_map, Nat2Z.inj_add. f_equal.
    fold (len (batches (BATCH_SIZE self) items)). unfold batches.
    rewrite batches_from_count
      by (trivial; change (len (@nil pystr)) with 0; lia).
    change (len (@nil pystr)) with 0. f_equal. }
  split; [exact Hr|]. split; [exact Hc|].
  intros path key ->. rewrite Hc by reflexivity. cbn [BATCH_SIZE __init__].
  now replace (len items + 2 - 1) with (len items + 1) by lia.
Qed.

Lemma X4_witness :
  requests
    (trace (snd (extract_product_info processor
                   (world_replying (Ok (reply_with sofa_reply))))))
  = requests (trace (world_replying (Ok (reply_with sofa_reply))))
    ++ map batch_prompt (batches (BATCH_SIZE processor) three_page_map).
Proof.
  refine (proj1 (X4_one_request_per_batch processor
                   (world_replying (Ok (reply_with sofa_reply)))
                   three_page_map _ _ _ _ _)); reflexivity.
Defined.

(** ** Outcomes of a batch *)

(** X5: an error of the model call that is no [Exception] (an
    interrupt from the keyboard, an exit) is not caught: the batch
    raises it after the request, nothing is logged, and the run ends
    with it, the batches that follow untouched. *)
Theorem X5_interrupt_ends_the_run
    self w items bs1 page_texts nums bs2 acc w1 e :
  batches (BATCH_SIZE self) items = bs1 ++ (page_texts, nums) :: bs2 ->
  run_batches (_process_batch self) bs1 [] w = (Ok acc, w1) ->
  service w1 (trace w1) (prompt_text page_texts nums) = Raise e ->
  isinstance_Exception (exn_cls e) = false ->
  let w2 := emit_event (EvGenerate (prompt_text page_texts nums)) w1 in
  _process_batch self page_texts nums w1 = (Raise e, w2)
  /\ _process_text_batches self items w = (Raise e, w2).
Proof.
  intros Hb Hr Hs He w2.
  assert (Hpb : _process_batch self page_texts nums w1 = (Raise e, w2)).
  { rewrite process_batch_unfold, parse_text_unfold. cbv zeta.
    now rewrite Hs, He. }
  split; [exact Hpb|]. unfold _process_text_batches.
  rewrite process_text_batches_runs, Hb, run_batches_app, Hr.
  cbn [run_batches]. now rewrite bind_unfold, Hpb.
Qed.

Lemma X5_witness :
  _process_text_batches processor three_page_map
    (world_replying (Raise interrupt))
  = (Raise interrupt,
     emit_event (EvGenerate (prompt_text [u "Sofa X"; u "Tavolo Y"] [1; 2]))
       (world_replying (Raise interrupt))).
Proof.
  apply (X5_interrupt_ends_the_run processor
           (world_replying (Raise interrupt)) three_page_map
           [] [u "Sofa X"; u "Tavolo Y"] [1; 2] [([u "Sedia Z"], [3])]
           [] (world_replying (Raise interrupt)) interrupt);
    reflexivity.
Defined.

(** X6: when the text of the reply holds no occurrence of the array
    shape, an empty text included, the batch hands back nothing and
    leaves no entry in the log: the request is all that happened. *)
Theorem X6_reply_without_array_is_dropped_silently
    self page_texts nums w r t :
  service w (trace w) (prompt_text page_texts nums) = Ok r ->
  first_text r = Some t ->
  (forall pre m, occurs_at t pre m -> ~ array_shape m) ->
  _process_batch self page_texts nums w
  = (Ok None, emit_event (EvGenerate (prompt_text page_texts nums)) w).
Proof.
  intros Hs Ht Hno. rewrite process_batch_unfold, parse_text_unfold.
  cbv zeta. rewrite Hs, Ht. destruct t as [|c t]; [reflexivity|].
  rewrite extract_json_unfold.
  destruct (re.search json_array_re (c :: t)) as [m|] eqn:E; [|reflexivity].
  apply search_array_some in E. destruct E as (pre & Ho & Hsh & _).
  now destruct (Hno pre m Ho).
Qed.

Lemma X6_witness :
  _process_batch processor [u "Sofa X"] [1]
    (world_replying (Ok (reply_with prose_reply)))
  = (Ok None,
     emit_event (EvGenerate (prompt_text [u "Sofa X"] [1]))
       (world_replying (Ok (reply_with prose_reply)))).
Proof.
  apply (X6_reply_without_array_is_dropped_silently processor
           [u "Sofa X"] [1] (world_replying (Ok (reply_with prose_reply)))
           (reply_with prose_reply) prose_reply eq_refl eq_refl).
  intros pre m [post Ho] (ws1 & body & ws2 & -> & _).
  assert (Hin : In 91%N prose_reply).
  { rewrite Ho. apply in_or_app. right. now left. }
  vm_compute in Hin. intuition discriminate.
Defined.

(** X7: when [json.loads] raises [JSONDecodeError] on the text found
    in the reply, the batch hands back nothing and the log gets one
    entry, after the request. *)
Theorem X7_undecodable_array_is_dropped_and_logged
    self page_texts nums w r t m e :
  service w (trace w) (prompt_text page_texts nums) = Ok r ->
  first_text r = Some t ->
  re.search json_array_re t = Some m ->
  fst (json.loads m w) = Raise e ->
  exn_cls e = JSONDecodeError ->
  _process_batch self page_texts nums w
  = (Ok None,
     after_decode_error
       (emit_event (EvGenerate (prompt_text page_texts nums)) w)).
Proof.
  intros Hs Ht Hm He Hc. rewrite process_batch_unfold, parse_text_unfold.
  cbv zeta. rewrite Hs, Ht. destruct t as [|c t]; [discriminate|].
  now rewrite extract_json_unfold, Hm, loads_emit, He, Hc.
Qed.

Lemma X7_witness :
  _process_batch processor [u "Sofa X"] [1]
    (world_replying (Ok (reply_with broken_reply)))
  = (Ok None,
     after_decode_error
       (emit_event (EvGenerate (prompt_text [u "Sofa X"] [1]))
          (world_replying (Ok (reply_with broken_reply))))).
Proof.
  apply (X7_undecodable_array_is_dropped_and_logged processor
           [u "Sofa X"] [1] (world_replying (Ok (reply_with broken_reply)))
           (reply_with broken_reply) broken_reply broken_reply
           (json.decode_error
              "Expecting property name enclosed in double quotes"));
    reflexivity.
Defined.

(** ** What the pattern finds *)

Lemma array_shape_ends m :
  array_shape m ->
  exists inner, m = 91%N :: inner ++ [93%N].
Proof.
  intros (ws1 & body & ws2 & -> & _).
  exists (ws1 ++ 123%N :: body ++ 125%N :: ws2).
  now repeat (rewrite <- app_assoc; cbn [app]).
Qed.

(** Two occurrences of the shape, and what lies between them, make one
    occurrence. *)
Lemma array_shape_merge m1 mid m2 :
  array_shape m1 -> array_shape m2 -> array_shape (m1 ++ mid ++ m2).
Proof.
  intros (ws1 & body1 & ws2 & -> & Hw1 & _) (ws3 & body2 & ws4 & -> & _ & Hw4).
  exists ws1,
    (body1 ++ 125%N :: ws2 ++ [93%N] ++ mid ++ 91%N :: ws3 ++ 123%N :: body2),
    ws4.
  split; [|now split].
  now repeat (rewrite <- app_assoc; cbn [app]).
Qed.

(** The text found is the occurrence itself when no bracket opens
    before it and none closes after it. *)
Lemma search_between pre m post :
  ~ In 91%N pre -> ~ In 93%N post -> array_shape m ->
  re.search json_array_re (pre ++ m ++ post) = Some m.
Proof.
  intros Hpre Hpost Hsh.
  destruct (re.search json_array_re (pre ++ m ++ post)) as [m'|] eqn:E.
  2:{ exfalso. apply (search_array_none _ E pre m); [now exists post|exact Hsh]. }
  f_equal. apply search_array_some in E.
  destruct E as (pre' & [post' Ho] & Hsh' & Hfirst).
  destruct (Hfirst pre m) as [Hle Hlong]; [now exists post|exact Hsh|].
  destruct (array_shape_ends m' Hsh') as [inner' ->].
  (* the match does not start inside [pre] *)
  assert (Hp : pre' = pre).
  { destruct (Nat.eq_dec (List.length pre') (List.length pre)) as [El|Nl].
    - now destruct (app_inj_length pre pre' _ _ Ho (eq_sym El)).
    - exfalso. apply Hpre.
      apply app_eq_app in Ho. destruct Ho as [d [[-> Hd]|[-> Hd]]].
      + destruct d as [|x d].
        * rewrite app_nil_r in Nl. congruence.
        * cbn [app] in Hd. injection Hd as -> _.
          apply in_or_app. right. now left.
      + rewrite length_app in Hle. destruct d; [|simpl in Hle; lia].
        rewrite app_nil_r in Nl. congruence. }
  subst pre'. apply app_inv_head in Ho.
  specialize (Hlong eq_refl).
  (* and does not end inside [post] *)
  apply app_eq_app in Ho. destruct Ho as [d [[Hm Hd]|[Hm Hd]]].
  - rewrite Hm, length_app in Hlong. destruct d; [|simpl in Hlong; lia].
    now rewrite app_nil_r in Hm.
  - destruct d as [|x d] using rev_ind; [now rewrite app_nil_r in Hm|].
    exfalso. apply Hpost. clear IHd.
    change (91%N :: inner' ++ [93%N]) with ((91%N :: inner') ++ [93%N]) in Hm.
    rewrite app_assoc in Hm. apply app_inj_tail in Hm. destruct Hm as [_ <-].
    rewrite Hd. apply in_or_app. left. apply in_or_app. right. now left.
Qed.

Lemma app_eq_app_le {A} (a b c d : list A) :
  a ++ b = c ++ d -> (List.length c <= List.length a)%nat ->
  exists l, a = c ++ l /\ d = l ++ b.
Proof.
  intros H L. apply app_eq_app in H. destruct H as [l [[H1 H2]|[H1 H2]]].
  - now exists l.
  - rewrite H1, length_app in L. destruct l; [|simpl in L; lia].
    exists []. rewrite app_nil_r in H1. subst. now rewrite app_nil_r.
Qed.

(** The text found covers every occurrence of the shape: it starts no
    later and ends no earlier. *)
Lemma search_covers pre M post :
  array_shape M ->
  exists pre' m post',
    re.search json_array_re (pre ++ M ++ post) = Some m
    /\ pre ++ M ++ post = pre' ++ m ++ post'
    /\ (List.length pre' <= List.length pre)%nat
    /\ (List.length post' <= List.length post)%nat.
Proof.
  intros HM.
  destruct (re.search json_array_re (pre ++ M ++ post)) as [m|] eqn:E.
  2:{ exfalso. apply (search_array_none _ E pre M); [now exists post|exact HM]. }
  apply search_array_some in E.
  destruct E as (pre' & [post' Ho] & Hsh & Hfirst).
  destruct (Hfirst pre M) as [Hle _]; [now exists post|exact HM|].
  exists pre', m, post'. split; [reflexivity|]. split; [exact Ho|].
  split; [exact Hle|].
  destruct (Nat.le_gt_cases (List.length post') (List.length post))
    as [Hp|Hp]; [exact Hp|exfalso].
  (* otherwise the text found ends inside [M] *)
  pose proof (f_equal (@List.length N) Ho) as HL. rewrite !length_app in HL.
  destruct (app_eq_app_le _ _ _ _ Ho Hle) as (d & -> & Hd).
  symmetry in Hd. rewrite app_assoc in Hd.
  destruct (app_eq_app_le (d ++ M) post m post' Hd) as (e & He & ->).
  { rewrite !length_app in *. lia. }
  assert (Hne : e <> []).
  { intros ->. simpl in Hp. lia. }
  (* and the shape reaches further from where it starts *)
  destruct Hsh as (ws & body & ws' & -> & Hws & Hws').
  destruct HM as (ws3 & body2 & ws4 & -> & Hws3 & Hws4).
  assert (Hlong : forall l,
             d ++ 91%N :: ws3 ++ 123%N :: body2 = (91%N :: ws ++ [123%N]) ++ l ->
             False).
  { intros l Hl.
    destruct (Hfirst pre' (91%N :: ws ++ 123%N :: l ++ 125%N :: ws4 ++ [93%N]))
      as [_ Hlen].
    - exists post. rewrite <- !app_assoc. f_equal.
      transitivity ((d ++ 91%N :: ws3 ++ 123%N :: body2)
                      ++ (125%N :: ws4 ++ [93%N]) ++ post).
      + now repeat (rewrite <- app_assoc; cbn [app]).
      + rewrite Hl. now repeat (rewrite <- app_assoc; cbn [app]).
    - now exists ws, l, ws4.
    - specialize (Hlen eq_refl).
      apply (f_equal (@List.length N)) in Hl, He.
      repeat (rewrite ?length_app in *; cbn [List.length] in * ).
      destruct e; [congruence|]. cbn [List.length] in *. lia. }
  assert (Hsplit : (d ++ 91%N :: ws3 ++ 123%N :: body2)
                     ++ (125%N :: ws4 ++ [93%N])
                   = (91%N :: ws ++ [123%N])
                     ++ (body ++ 125%N :: ws' ++ [93%N]) ++ e).
  { norm_app_in He.
    repeat (rewrite <- app_assoc; cbn [app]). exact He. }
  apply app_eq_app in Hsplit. destruct Hsplit as [l [[H1 H2]|[H1 H2]]].
  - exact (Hlong l H1).
  - destruct l as [|x l] using rev_ind.
    + rewrite app_nil_r in H1. apply (Hlong []). now rewrite app_nil_r.
    + clear IHl. rewrite app_comm_cons, app_assoc in H1.
      apply app_inj_tail in H1. destruct H1 as [H1 _].
      assert (Hin : In 123%N (91%N :: ws)).
      { rewrite H1. apply in_or_app. left. apply in_or_app. right.
        right. apply in_or_app. right. now left. }
      destruct Hin as [Hin|Hin]; [discriminate|].
      unfold spaces in *. rewrite Forall_forall in Hws.
      specialize (Hws _ Hin). discriminate.
Qed.

(** X8: a reply that holds one occurrence of the array shape, with no
    opening bracket before it and no closing bracket after it, gives
    the parser exactly that occurrence: what a preamble and a trailer
    say is skipped. *)
Theorem X8_preamble_and_trailer_are_skipped self pre m post w :
  ~ In 91%N pre -> ~ In 93%N post -> array_shape m ->
  re.search json_array_re (pre ++ m ++ post) = Some m
  /\ _extract_json_from_response self (pre ++ m ++ post) w
     = _extract_json_from_response self m w.
Proof.
  intros Hpre Hpost Hsh.
  assert (H1 : re.search json_array_re (pre ++ m ++ post) = Some m)
    by now apply search_between.
  split; [exact H1|].
  rewrite !extract_json_unfold, H1.
  pose proof (search_between [] m [] (fun x => x) (fun x => x) Hsh) as H2.
  cbn [app] in H2. rewrite app_nil_r in H2. now rewrite H2.
Qed.

Lemma X8_witness :
  re.search json_array_re sofa_reply
  = Some (u "[{" ++ quoted "product_name" ++ u ": " ++ quoted "Sofa X"
            ++ u "}]").
Proof.
  refine (proj1 (X8_preamble_and_trailer_are_skipped processor
                   (u "Sure! Here is the data: ")
                   (u "[{" ++ quoted "product_name" ++ u ": "
                      ++ quoted "Sofa X" ++ u "}]")
                   [] empty_world _ _ _)).
  - vm_compute. intuition discriminate.
  - intros [].
  - exists [], (quoted "product_name" ++ u ": " ++ quoted "Sofa X"), [].
    repeat split; constructor.
Defined.

(** X9: a reply that holds two occurrences of the array shape gives
    the parser one text that covers both and all that lies between:
    it starts at or before the bracket that opens the first and ends
    at or after the bracket that closes the second.  When no bracket
    opens before the first and none closes after the second, the text
    runs from the one bracket to the other. *)
Theorem X9_two_arrays_are_taken_as_one pre m1 mid m2 post :
  array_shape m1 -> array_shape m2 ->
  (exists pre' m post',
     re.search json_array_re (pre ++ (m1 ++ mid ++ m2) ++ post) = Some m
     /\ pre ++ (m1 ++ mid ++ m2) ++ post = pre' ++ m ++ post'
     /\ (List.length pre' <= List.length pre)%nat
     /\ (List.length post' <= List.length post)%nat)
  /\ (~ In 91%N pre -> ~ In 93%N post ->
      re.search json_array_re (pre ++ (m1 ++ mid ++ m2) ++ post)
      = Some (m1 ++ mid ++ m2)).
Proof.
  intros H1 H2.
  pose proof (array_shape_merge m1 mid m2 H1 H2) as HM.
  split; [now apply search_covers|].
  intros Hpre Hpost. now apply search_between.
Qed.

Lemma X9_witness :
  re.search json_array_re two_arrays = Some two_arrays
  /\ _extract_json_from_response processor two_arrays empty_world
     = (Ok None, after_decode_error empty_world).
Proof.
  split; [|reflexivity].
  assert (Hs : array_shape (u "[{}]")).
  { exists [], [], []. repeat split; constructor. }
  pose proof (proj2 (X9_two_arrays_are_taken_as_one [] (u "[{}]") (u " and ")
                       (u "[{}]") [] Hs Hs)) as H.
  cbn [app] in H. rewrite app_nil_r in H. apply H; intros [].
Defined.

(** ** What the parser returns *)

Section DecodedArray.
Import json.

Lemma object_loop_dict scan fuel : forall s pairs v rest,
  object_loop scan fuel s pairs = Parsed v rest -> exists d, v = PyDict d.
Proof.
  induction fuel as [|fuel IH]; intros s pairs v rest H; [discriminate|].
  cbn [object_loop] in H.
  destruct s as [|q s1]; [discriminate|].
  destruct (q =? 34)%N; [|discriminate].
  destruct (scanstring s1) as [[key s2]|]; [|discriminate].
  destruct (skip_ws s2) as [|c s3]; [discriminate|].
  destruct (c =? 58)%N; [|discriminate].
  destruct (scan (skip_ws s3)) as [v0 r0|msg|e|]; try discriminate.
  destruct (skip_ws r0) as [|c' r1]; [discriminate|].
  destruct (c' =? 125)%N; [injection H as <- _; eauto|].
  destruct (c' =? 44)%N; [|discriminate]. now apply IH in H.
Qed.

(** An array that is scanned has at least the element scanned first. *)
Lemma array_loop_head scan fuel : forall s values v rest,
  array_loop scan fuel s values = Parsed v rest ->
  exists v0 r0 more,
    scan s = Parsed v0 r0 /\ v = PyList (values ++ v0 :: more).
Proof.
  induction fuel as [|fuel IH]; intros s values v rest H; [discriminate|].
  cbn [array_loop] in H.
  destruct (scan s) as [v0 r0|msg|e|] eqn:E; try discriminate.
  destruct (skip_ws r0) as [|c r1]; [discriminate|].
  destruct (c =? 93)%N.
  - injection H as <- _. now exists v0, r0, [].
  - destruct (c =? 44)%N; [|discriminate].
    apply IH in H. destruct H as (v1 & r2 & more & _ & ->).
    exists v0, r0, (v1 :: more). split; [reflexivity|].
    now rewrite <- app_assoc.
Qed.

Lemma scan_once_brace room s v rest :
  scan_once room (123%N :: s) = Parsed v rest -> exists d, v = PyDict d.
Proof.
  destruct room as [|room]; cbn [scan_once];
    change (123 =? 34)%N with false; change (123 =? 123)%N with true;
    cbv iota; [discriminate|].
  destruct (skip_ws s) as [|c r]; [discriminate|].
  destruct (c =? 125)%N; [intros [= <- _]; eauto|].
  apply object_loop_dict.
Qed.

(** What [\s] matches is no start of a JSON value unless it is
    whitespace for JSON too. *)
Lemma scan_once_space room c s :
  re.isspace c = true -> is_ws c = false ->
  forall v rest, scan_once room (c :: s) <> Parsed v rest.
Proof.
  intros Hs Hw v rest.
  unfold re.isspace in Hs.
  assert (Hc : (9 <= c <= 13 \/ 28 <= c <= 32 \/ c = 133 \/ c = 160
                \/ c = 5760 \/ 8192 <= c <= 8202 \/ c = 8232 \/ c = 8233
                \/ c = 8239 \/ c = 8287 \/ c = 12288)%N).
  { repeat (apply orb_prop in Hs; destruct Hs as [Hs|Hs]);
      try (apply andb_prop in Hs; destruct Hs as [H1 H2];
           apply N.leb_le in H1; apply N.leb_le in H2);
      try apply N.eqb_eq in Hs; lia. }
  assert (Hne : forall k, (k = 34 \/ k = 123 \/ k = 91 \/ k = 110 \/ k = 116
                           \/ k = 102 \/ k = 78 \/ k = 73 \/ k = 45
                           \/ 48 <= k <= 57)%N -> c <> k) by (intros k; lia).
  rewrite scan_once_scalar by (apply N.eqb_neq, Hne; lia).
  cbn [scan_once].
  rewrite (proj2 (N.eqb_neq c 34)), (proj2 (N.eqb_neq c 123)),
    (proj2 (N.eqb_neq c 91)) by (apply Hne; lia).
  cbn [startswith u map list_ascii_of_string].
  repeat match goal with
         | |- context [N.eqb (N_of_ascii ?a) c] =>
             rewrite (proj2 (N.eqb_neq (N_of_ascii a) c))
               by (apply not_eq_sym, Hne; vm_compute; lia)
         end.
  cbn [andb]. unfold match_number.
  rewrite (proj2 (N.eqb_neq c 45)) by (apply Hne; lia).
  unfold int_part.
  assert (H48 : (c =? 48)%N = false) by (apply N.eqb_neq, Hne; lia).
  rewrite H48.
  assert (Hd : is_digit c = false).
  { unfold is_digit. destruct (48 <=? c)%N eqn:E1; [|reflexivity].
    destruct (c <=? 57)%N eqn:E2; [|reflexivity].
    apply N.leb_le in E1. apply N.leb_le in E2. exfalso.
    apply (Hne c); [lia|reflexivity]. }
  rewrite Hd. discriminate.
Qed.

(** Skipping JSON whitespace in a run of [\s] before a brace stops at
    the brace, or at a character that is whitespace for [\s] only. *)
Lemma skip_ws_run ws : forall tail,
  spaces ws ->
  skip_ws (ws ++ 123%N :: tail) = 123%N :: tail
  \/ exists c t,
       skip_ws (ws ++ 123%N :: tail) = c :: t
       /\ re.isspace c = true /\ is_ws c = false.
Proof.
  induction ws as [|a ws IH]; intros tail Hs; [now left|].
  inversion Hs as [|? ? Ha Hs']; subst. cbn [app skip_ws].
  destruct (is_ws a) eqn:E; [now apply IH|].
  right. now exists a, (ws ++ 123%N :: tail).
Qed.

(** A text of the array shape decodes, if at all, to a list that
    starts with an object. *)
Lemma decode_array_shape room m v :
  array_shape m -> decode room m = Ok v ->
  exists d more, v = PyList (PyDict d :: more).
Proof.
  intros (ws1 & body & ws2 & -> & Hw1 & _). unfold decode.
  cbn [skip_ws]. change (is_ws 91) with false. cbv iota.
  destruct room as [|room]; cbn [scan_once];
    change (91 =? 34)%N with false; change (91 =? 123)%N with false;
    change (91 =? 91)%N with true; cbv iota; [discriminate|].
  set (n := List.length _).
  set (tail := body ++ 125%N :: ws2 ++ [93%N]).
  destruct (skip_ws_run ws1 tail Hw1) as [E|(c & t & E & Hc & Hj)];
    rewrite E.
  - change (123 =? 93)%N with false. cbv iota.
    destruct (array_loop _ _ _ _) as [v0 r0|msg|e|] eqn:EA; try discriminate.
    apply array_loop_head in EA. destruct EA as (v1 & r1 & more & Es & ->).
    apply scan_once_brace in Es. destruct Es as [d ->].
    destruct (skip_ws r0); [|discriminate]. intros [= <-]. now exists d, more.
  - assert (H93 : (c =? 93)%N = false).
    { apply N.eqb_neq. intros ->. discriminate. }
    rewrite H93.
    destruct (array_loop _ _ _ _) as [v0 r0|msg|e|] eqn:EA; try discriminate.
    apply array_loop_head in EA. destruct EA as (v1 & r1 & more & Es & _).
    now destruct (scan_once_space room c t Hc Hj v1 r1).
Qed.

Lemma loads_array_shape m w v :
  array_shape m -> fst (loads m w) = Ok v ->
  exists d more, v = PyList (PyDict d :: more).
Proof.
  intros Hsh. rewrite loads_unfold. cbn [fst].
  destruct (startswith _ m); [discriminate|].
  now apply decode_array_shape.
Qed.
End DecodedArray.

Lemma parser_returns_list self s w data w' :
  _extract_json_from_response self s w = (Ok (Some data), w') ->
  exists d more, data = PyList (PyDict d :: more) /\ w' = w.
Proof.
  rewrite extract_json_unfold.
  destruct (re.search json_array_re s) as [m|] eqn:E; [|discriminate].
  apply search_array_some in E. destruct E as (pre & _ & Hsh & _).
  destruct (fst (json.loads m w)) as [v|e] eqn:El;
    [|destruct (isinstance_JSONDecodeError _); discriminate].
  intros [= <- <-].
  destruct (loads_array_shape m w v Hsh El) as (d & more & ->).
  now exists d, more.
Qed.

(** X10: whenever the parser returns a value, it is a list that is not
    empty and whose first element is an object, and nothing was
    logged: the two brackets and the brace that the pattern asks for
    leave [json.loads] no other result. *)
Theorem X10_parser_returns_a_list_headed_by_an_object self s w data w' :
  _extract_json_from_response self s w = (Ok (Some data), w') ->
  exists d more, data = PyList (PyDict d :: more) /\ w' = w.
Proof. apply parser_returns_list. Qed.

Lemma X10_witness :
  exists d more,
    PyList [PyDict [(u "product_name", PyStr (u "Sofa X"))]]
    = PyList (PyDict d :: more)
    /\ empty_world = empty_world.
Proof.
  apply (X10_parser_returns_a_list_headed_by_an_object processor sofa_reply
           empty_world
           (PyList [PyDict [(u "product_name", PyStr (u "Sofa X"))]])
           empty_world).
  reflexivity.
Defined.

(** ** Post-processing, further *)

Lemma dict_set_same {V} k (v : V) d :
  dict_get pystr_eqb k d = Some v -> dict_set pystr_eqb k v d = d.
Proof.
  induction d as [|[k0 v0] d IH]; cbn [dict_get dict_set]; [discriminate|].
  destruct (pystr_eqb k k0).
  - now intros [= ->].
  - intros H. now rewrite IH.
Qed.

(** X11: post-processing a record that was post-processed returns it
    as it is, whatever the page numbers of the batch it is given
    with. *)
Theorem X11_postprocessing_twice_is_once
    self nums product product' w w' nums2 w2 :
  update_product self nums product w = (Ok product', w') ->
  update_product self nums2 product' w2 = (Ok product', w2).
Proof.
  intros H. apply update_product_returns in H.
  destruct H as ((d & ref & -> & Hr & Hf) & _ & _).
  rewrite (update_product_present self nums2 d ref w2 Hr).
  now rewrite (dict_set_same _ _ _ Hf), (dict_set_same _ _ _ Hr).
Qed.

Lemma X11_witness :
  update_product processor [9]
    (PyDict [(u "product_name", PyStr (u "Sofa X"));
             (page_reference,
              PyDict [(file_path, PyStr catalog);
                      (page_numbers, PyList [PyInt 3])])])
    empty_world
  = (Ok (PyDict [(u "product_name", PyStr (u "Sofa X"));
                 (page_reference,
                  PyDict [(file_path, PyStr catalog);
                          (page_numbers, PyList [PyInt 3])])]),
     empty_world).
Proof.
  apply (X11_postprocessing_twice_is_once processor [3; 4]
           (PyDict [(u "product_name", PyStr (u "Sofa X"))]) _
           empty_world empty_world).
  reflexivity.
Defined.

Lemma update_product_updated self first nums product w :
  updatable product = true ->
  update_product self (first :: nums) product w
  = (Ok (updated_record (pdf_path self) first product), w).
Proof.
  intros Hu. apply updatable_cases in Hu.
  destruct Hu as (d & -> & [Hn|[ref Hr]]); cbn [updated_record].
  - rewrite Hn, (update_product_absent self first nums d w Hn).
    rewrite dict_set_absent; [reflexivity|]. unfold dict_has. now rewrite Hn.
  - rewrite Hr. apply (update_product_present self _ d ref w Hr).
Qed.

Lemma update_loop_map self first nums products : forall w,
  forallb updatable products = true ->
  map_M (update_product self (first :: nums)) products w
  = (Ok (map (updated_record (pdf_path self) first) products), w).
Proof.
  induction products as [|p ps IH]; intros w Hu; [reflexivity|].
  cbn [forallb] in Hu. apply andb_prop in Hu. destruct Hu as [Hp Hps].
  rewrite map_M_cons, (update_product_updated self first nums p w Hp).
  now rewrite (IH w Hps).
Qed.

(** X12: when every element of the decoded array can be updated, the
    batch hands back a list of as many records, in the order of the
    array, each the update of the element at its place; the other
    elements play no part in it, and nothing is logged. *)
Theorem X12_batch_updates_each_record_in_place
    self page_texts first nums w c reply w1 products w2 :
  _parse_text_with_gemini self page_texts (first :: nums) w
    = (Ok (Some (c :: reply)), w1) ->
  _extract_json_from_response self (c :: reply) w1
    = (Ok (Some (PyList products)), w2) ->
  forallb updatable products = true ->
  _process_batch self page_texts (first :: nums) w
  = (Ok (Some (PyList (map (updated_record (pdf_path self) first) products))),
     w2)
  /\ len (map (updated_record (pdf_path self) first) products) = len products.
Proof.
  intros Hp Hj Hu. split; [|unfold len; now rewrite length_map].
  rewrite process_batch_unfold, Hp, Hj.
  destruct (parser_returns_list self _ _ _ _ Hj) as (d & more & Hd & _).
  injection Hd as ->. cbn [truthy].
  rewrite update_products_list. now rewrite (update_loop_map _ _ _ _ _ Hu).
Qed.

Lemma X12_witness :
  _process_batch processor [u "Sofa X"; u "Tavolo Y"] [1; 2]
    (world_replying (Ok (reply_with two_records_reply)))
  = (Ok (Some (PyList
                 [PyDict [(page_reference,
                           PyDict [(page_numbers, PyList [PyInt 2]);
                                   (file_path, PyStr catalog)])];
                  PyDict [(u "product_name", PyStr (u "Tavolo Y"));
                          (page_reference,
                           PyDict [(file_path, PyStr catalog);
                                   (page_numbers, PyList [PyInt 1])])]])),
     emit_event (EvGenerate (prompt_text [u "Sofa X"; u "Tavolo Y"] [1; 2]))
       (world_replying (Ok (reply_with two_records_reply)))).
Proof.
  refine (proj1 (X12_batch_updates_each_record_in_place processor
                   [u "Sofa X"; u "Tavolo Y"] 1 [2]
                   (world_replying (Ok (reply_with two_records_reply)))
                   91%N (tl two_records_reply) _
                   [PyDict [(page_reference,
                             PyDict [(page_numbers, PyList [PyInt 2])])];
                    PyDict [(u "product_name", PyStr (u "Tavolo Y"))]]
                   _ _ _ _)); reflexivity.
Defined.

(** ** The batch size *)

Lemma batches_from_never_full N : N <= 0 -> forall items texts nums,
  batches_from N items texts nums
  = match texts ++ map snd items with
    | [] => []
    | _ :: _ => [(texts ++ map snd items, nums ++ map fst items)]
    end.
Proof.
  intros HN. induction items as [|[page_num page_text] rest IH];
    intros texts nums; cbn [batches_from map fst snd].
  - rewrite !app_nil_r. now destruct texts.
  - destruct (Z.eqb_spec (len (texts ++ [page_text])) N) as [E|_].
    + unfold len in E. rewrite length_app in E. simpl in E. lia.
    + rewrite IH, <- !app_assoc. reflexivity.
Qed.

(** X13: with a batch size of zero or less no batch is ever full: all
    the pages of a document that has any go to the model as one
    batch. *)
Theorem X13_batch_size_not_positive N items :
  N <= 0 -> items <> [] ->
  batches N items = [(map snd items, map fst items)]
  /\ forall process_batch w,
       process_text_batches process_batch N items w
       = run_batches process_batch [(map snd items, map fst items)] [] w.
Proof.
  intros HN Hi.
  assert (Hb : batches N items = [(map snd items, map fst items)]).
  { unfold batches. rewrite batches_from_never_full by exact HN.
    cbn [app]. destruct items as [|[n t] items]; [congruence|reflexivity]. }
  split; [exact Hb|]. intros f w.
  now rewrite process_text_batches_runs, Hb.
Qed.

Lemma X13_witness :
  batches 0 three_page_map
  = [([u "Sofa X"; u "Tavolo Y"; u "Sedia Z"], [1; 2; 3])].
Proof.
  apply (X13_batch_size_not_positive 0 three_page_map); [lia|discriminate].
Defined.

(** ** The prompt, further *)

Lemma join_holds sep parts p :
  In p parts -> exists pre post, join sep parts = pre ++ p ++ post.
Proof.
  induction parts as [|q parts IH]; intros Hin; [destruct Hin|].
  destruct Hin as [->|Hin].
  - destruct parts as [|q' parts].
    + exists [], []. cbn [join app]. now rewrite app_nil_r.
    + exists [], (sep ++ join sep (q' :: parts)). reflexivity.
  - destruct (IH Hin) as (pre & post & E).
    destruct parts as [|q' parts]; [destruct Hin|].
    exists (q ++ sep ++ pre), post. cbn [join]. cbn [join] in E.
    rewrite E. now rewrite <- !app_assoc.
Qed.

Lemma nth_error_zip {A B} (a : list A) : forall (b : list B) i x y,
  nth_error a i = Some x -> nth_error b i = Some y ->
  In (x, y) (zip a b).
Proof.
  unfold zip. induction a as [|x0 a IH]; intros b i x y Ha Hb;
    [now destruct i|].
  destruct b as [|y0 b]; [now destruct i|].
  destruct i as [|i]; cbn [nth_error] in *.
  - injection Ha as ->. injection Hb as ->. now left.
  - right. now apply (IH b i).
Qed.

(** ** The result of a run *)

(** X15: when the document is read and no batch raises, the run
    returns the records that the batches hand back, batch after batch
    in the order of the pages, none removed and none merged. *)
Theorem X15_result_is_the_batches_in_order self w items w0 rs w' :
  _extract_text_from_pdf self w = (Ok items, w0) ->
  batch_results self (batches (BATCH_SIZE self) items) w0 rs w' ->
  extract_product_info self w = (Ok (List.concat (map records_of rs)), w').
Proof.
  intros He Hr. rewrite extract_product_info_unfold, He.
  now rewrite (run_batches_concat self _ _ _ _ Hr []).
Qed.

Lemma wrap_section (a b c d J pre sec post : pystr) :
  J = pre ++ sec ++ post ->
  a ++ b ++ c ++ J ++ d = (a ++ b ++ c ++ pre) ++ sec ++ (post ++ d).
Proof. intros ->. now repeat rewrite <- app_assoc. Qed.

(** X14: the prompt holds, for every page of the batch, the section
    [TEXT FROM PAGE n:] followed on the next line by the text of the
    page between quotes, the text as it is, with nothing escaped. *)
Theorem X14_prompt_holds_every_page
    self page_texts page_nums w i num page_text :
  nth_error page_nums i = Some num ->
  nth_error page_texts i = Some page_text ->
  exists pre post,
    _create_prompt self page_texts page_nums w
    = (Ok (pre ++ prompt_section num page_text ++ post), w).
Proof.
  intros Hn Ht. pose proof (nth_error_zip _ _ _ _ _ Hn Ht) as Hin.
  apply (in_map (fun '(num, text) => prompt_section num text)) in Hin.
  apply (join_holds [newline]) in Hin. destruct Hin as (pre & post & E).
  unfold _create_prompt, ret. cbv zeta.
  match goal with
  | |- exists _ _, (Ok (?a ++ ?b ++ ?c ++ ?J ++ ?d), _) = _ =>
      exists (a ++ b ++ c ++ pre), (post ++ d);
      exact (f_equal (fun x => (Ok x, w))
               (wrap_section a b c d J pre _ post E))
  end.
Qed.

Lemma X14_witness :
  exists pre post,
    _create_prompt processor [u "Sofa X"; u "Tavolo Y"] [1; 2] empty_world
    = (Ok (pre ++ prompt_section 2 (u "Tavolo Y") ++ post), empty_world).
Proof.
  apply (X14_prompt_holds_every_page processor [u "Sofa X"; u "Tavolo Y"]
           [1; 2] empty_world 1%nat 2 (u "Tavolo Y")); reflexivity.
Defined.

Lemma X15_witness :
  fst (extract_product_info processor
         (world_replying (Ok (reply_with sofa_reply))))
  = Ok (List.concat
          (map records_of
             [Some (PyList
                      [PyDict [(u "product_name", PyStr (u "Sofa X"));
                               (page_reference,
                                PyDict [(file_path, PyStr catalog);
                                        (page_numbers, PyList [PyInt 1])])]]);
              Some (PyList
                      [PyDict [(u "product_name", PyStr (u "Sofa X"));
                               (page_reference,
                                PyDict [(file_path, PyStr catalog);
                                        (page_numbers, PyList [PyInt 3])])]])])).
Proof.
  erewrite (X15_result_is_the_batches_in_order processor
              (world_replying (Ok (reply_with sofa_reply))) three_page_map).
  - reflexivity.
  - reflexivity.
  - eapply results_cons; [reflexivity|].
    eapply results_cons; [reflexivity|]. apply results_nil.
Defined.

Lemma array_shape_holds m :
  array_shape m ->
  In 91%N m /\ In 123%N m /\ In 125%N m /\ In 93%N m.
Proof.
  intros (ws1 & body & ws2 & -> & _).
  repeat split.
  - now left.
  - right. apply in_or_app. right. now left.
  - right. apply in_or_app. right. right. apply in_or_app. right. now left.
  - right. apply in_or_app. right. right. apply in_or_app. right. right.
    apply in_or_app. right. now left.
Qed.

(** X16: a reply that lacks one of the four characters of the shape
    (the two brackets, the two braces) gives the parser nothing: a
    bare object, among others, is not taken for a record. *)
Theorem X16_no_bracket_no_record self s w :
  ~ In 91%N s \/ ~ In 123%N s \/ ~ In 125%N s \/ ~ In 93%N s ->
  _extract_json_from_response self s w = (Ok None, w).
Proof.
  intros Hno. rewrite extract_json_unfold.
  destruct (re.search json_array_re s) as [m|] eqn:E; [|reflexivity].
  exfalso. apply search_array_some in E.
  destruct E as (pre & [post ->] & Hsh & _).
  apply array_shape_holds in Hsh. destruct Hsh as (H1 & H2 & H3 & H4).
  assert (Hin : forall c, In c m -> In c (pre ++ m ++ post)).
  { intros c Hc. apply in_or_app. right. apply in_or_app. now left. }
  destruct Hno as [H|[H|[H|H]]]; apply H; now apply Hin.
Qed.

Lemma X16_witness :
  _extract_json_from_response processor bare_object_reply empty_world
  = (Ok None, empty_world).
Proof.
  apply (X16_no_bracket_no_record processor bare_object_reply empty_world).
  left. vm_compute. intuition discriminate.
Defined.

(** A run that raises has sent the prompts of the batches up to the
    one that raised, and no other. *)
Lemma run_batches_stops self bs : forall acc w e w',
  run_batches (_process_batch self) bs acc w = (Raise e, w') ->
  exists bs1 b bs2 acc1 w1,
    bs = bs1 ++ b :: bs2
    /\ run_batches (_process_batch self) bs1 acc w = (Ok acc1, w1)
    /\ _process_batch self (fst b) (snd b) w1 = (Raise e, w')
    /\ requests (trace w')
       = requests (trace w) ++ map batch_prompt (bs1 ++ [b]).
Proof.
  induction bs as [|[texts nums] bs IH]; intros acc w e w' Hr;
    [discriminate|].
  cbn [run_batches] in Hr. rewrite bind_unfold in Hr.
  pose proof (process_batch_requests self texts nums w) as Hq.
  destruct (_process_batch self texts nums w) as [[r|e0] w1] eqn:Eb.
  - rewrite bind_unfold in Hr.
    assert (Hx : extend_products acc r w1 = (Ok (acc ++ records_of r), w1)).
    { destruct (process_batch_returns self _ _ _ _ _ Eb) as [->|(ps & -> & _)].
      - cbn [records_of]. now rewrite app_nil_r.
      - apply extend_products_list. }
    rewrite Hx in Hr. apply IH in Hr.
    destruct Hr as (bs1 & b & bs2 & acc1 & w2 & -> & Hr1 & Hb & Hrq).
    exists ((texts, nums) :: bs1), b, bs2, acc1, w2.
    split; [reflexivity|]. split.
    + cbn [run_batches]. now rewrite bind_unfold, Eb, bind_unfold, Hx.
    + split; [exact Hb|]. cbn [snd] in Hq. rewrite Hrq, Hq.
      now rewrite <- app_assoc.
  - injection Hr as <- <-.
    exists [], (texts, nums), bs, acc, w.
    repeat split; trivial.
Qed.

(** X17: a run that raises after the document was read stopped at the
    batch that raised: the error is the error of that batch, the
    batches before it returned, and the requests sent are those of
    the batches up to it; the batches after it were never sent. *)
Theorem X17_failed_run_sends_nothing_more self w items w0 e w' :
  _extract_text_from_pdf self w = (Ok items, w0) ->
  extract_product_info self w = (Raise e, w') ->
  exists bs1 b bs2 acc1 w1,
    batches (BATCH_SIZE self) items = bs1 ++ b :: bs2
    /\ run_batches (_process_batch self) bs1 [] w0 = (Ok acc1, w1)
    /\ _process_batch self (fst b) (snd b) w1 = (Raise e, w')
    /\ requests (trace w')
       = requests (trace w) ++ map batch_prompt (bs1 ++ [b]).
Proof.
  intros He Hr. rewrite extract_product_info_unfold, He in Hr.
  apply run_batches_stops in Hr.
  destruct Hr as (bs1 & b & bs2 & acc1 & w1 & Hb & Hr1 & Hpb & Hq).
  exists bs1, b, bs2, acc1, w1. repeat split; trivial.
  destruct (extractor_frame self w) as [H3 _].
  rewrite He in H3. cbn [snd] in H3. now rewrite <- H3.
Qed.

Lemma X17_witness :
  exists bs1 b bs2 acc1 w1,
    batches (BATCH_SIZE processor) three_page_map = bs1 ++ b :: bs2
    /\ run_batches (_process_batch processor) bs1 []
         (emit_event (EvClose catalog)
            (emit_event (EvOpen catalog)
               (world_replying (Raise interrupt))))
       = (Ok acc1, w1)
    /\ _process_batch processor (fst b) (snd b) w1
       = (Raise interrupt,
          snd (extract_product_info processor
                 (world_replying (Raise interrupt))))
    /\ requests
         (trace (snd (extract_product_info processor
                        (world_replying (Raise interrupt)))))
       = requests (trace (world_replying (Raise interrupt)))
         ++ map batch_prompt (bs1 ++ [b]).
Proof.
  apply (X17_failed_run_sends_nothing_more processor
           (world_replying (Raise interrupt)) three_page_map);
    reflexivity.
Defined.
